(** * gitfs: a read-only [fs.FS] view over a go-git tree

    A shallow embedding of the adapter ([fs.go] and the file handle
    [gitFile]) together with a model of the library calls it makes
    (io/fs [ValidPath], go-git's [object.Tree] and [filemode]).

    Conventions.
    - A Go function returning [(T, error)] is a pair
      [option T * option error]; a returned slice is a [list], the nil
      slice being [[]].
    - The handle [*gitFile] is mutated in place by its methods; here each
      method takes the handle and returns the updated handle next to its
      Go results.
    - Calls into the object store are effects: every such call is recorded
      in a trace ([Traced]), so that "no storage access" is a statement
      about the code and not about its result. *)

From Stdlib Require Import List String Ascii Strings.Byte ZArith NArith Lia Bool.
Import ListNotations.
Open Scope string_scope.

(* ================================================================= *)
(** ** Errors *)

(** The error values that can reach the adapter.  [fs.ErrInvalid],
    [fs.ErrNotExist] and [io.EOF] are Go's; the [object.Err*] and
    [plumbing.ErrObjectNotFound] sentinels are go-git's; [ErrBackend]
    stands for any other failure of the storage backend (I/O, decoding);
    [Panic] is a run-time panic (a nil dereference), see [Read].
    [PathError] is [*fs.PathError]. *)
Inductive error : Type :=
| ErrInvalid
| ErrNotExist
| EOF
| ErrDirectoryNotFound
| ErrEntryNotFound
| ErrFileNotFound
| ErrObjectNotFound
| ErrUnsupportedObject
| ErrMalformedMode (m : N)
| ErrBackend (msg : string)
| Panic
| PathError (Op Path : string) (Err : error).

(** Library-internal results (go-git functions, which the adapter always
    tests with [err != nil] first). *)
Inductive result (A : Type) : Type :=
| Ok (a : A)
| Err (e : error).
Arguments Ok {A} a.
Arguments Err {A} e.

(* ================================================================= *)
(** ** Storage accesses as a trace *)

Definition hash := N.
Bind Scope N_scope with hash.

Inductive ObjectType := CommitObject | TreeObject | BlobObject | TagObject.

Definition ObjectType_eqb (a b : ObjectType) : bool :=
  match a, b with
  | CommitObject, CommitObject | TreeObject, TreeObject
  | BlobObject, BlobObject | TagObject, TagObject => true
  | _, _ => false
  end.

(** What the code asks of the store: an object by type and hash, a content
    stream of a blob, a read from or a close of such a stream. *)
Inductive event :=
| EvObject (t : ObjectType) (h : hash)
| EvReader (h : hash)
| EvStreamRead
| EvStreamClose.

Definition Traced (A : Type) : Type := (A * list event)%type.

Definition ret {A} (a : A) : Traced A := (a, []).

Definition bind {A B} (m : Traced A) (k : A -> Traced B) : Traced B :=
  (fst (k (fst m)), (snd m ++ snd (k (fst m)))%list).

Definition emit (e : event) : Traced unit := (tt, [e]).

Declare Scope traced_scope.
Delimit Scope traced_scope with traced.
Notation "x <- m ;; k" := (bind m (fun x => k))
  (at level 100, m at next level, right associativity) : traced_scope.
Notation "m ;;; k" := (bind m (fun _ => k))
  (at level 100, right associativity) : traced_scope.
Open Scope traced_scope.

(** The Go results of a traced call, and the accesses it made. *)
Definition value {A} (m : Traced A) : A := fst m.
Definition accesses {A} (m : Traced A) : list event := snd m.

(* ================================================================= *)
(** ** io/fs: path syntax *)

Module fs.

(** [strings.Split(name, "/")]: never empty, so it is a first element
    and the list of the others. *)
Fixpoint Split (name : string) : string * list string :=
  match name with
  | EmptyString => (EmptyString, [])
  | String c rest =>
      let (h, tl) := Split rest in
      if Ascii.eqb c "/" then (EmptyString, h :: tl) else (String c h, tl)
  end.

Definition elems (name : string) : list string :=
  let (h, tl) := Split name in h :: tl.

Definition cont (b : N) : bool := ((128 <=? b) && (b <=? 191))%N.
Definition within (lo hi b : N) : bool := ((lo <=? b) && (b <=? hi))%N.

(** [utf8.Valid]: the first byte selects the length of the encoding and
    the range accepted for the second byte (the package's accept
    ranges); the remaining bytes are continuation bytes. *)
Fixpoint utf8_Valid (p : list N) : bool :=
  match p with
  | [] => true
  | b :: p1 =>
      if (b <? 128)%N then utf8_Valid p1
      else if within 194 223 b then
        match p1 with
        | c1 :: p2 => cont c1 && utf8_Valid p2
        | _ => false
        end
      else if within 224 239 b then
        match p1 with
        | c1 :: c2 :: p3 =>
            (if (b =? 224)%N then within 160 191 c1
             else if (b =? 237)%N then within 128 159 c1
             else cont c1)
            && cont c2 && utf8_Valid p3
        | _ => false
        end
      else if within 240 244 b then
        match p1 with
        | c1 :: c2 :: c3 :: p4 =>
            (if (b =? 240)%N then within 144 191 c1
             else if (b =? 244)%N then within 128 143 c1
             else cont c1)
            && cont c2 && cont c3 && utf8_Valid p4
        | _ => false
        end
      else false
  end.

Definition ValidString (name : string) : bool :=
  utf8_Valid (map N_of_ascii (list_ascii_of_string name)).

Definition elem_ok (elem : string) : bool :=
  negb ((elem =? "") || (elem =? ".") || (elem =? "..")).

(** [fs.ValidPath]: valid UTF-8; the name "." alone; otherwise every
    slash-separated element is checked in turn and none may be empty,
    "." or "..". *)
Definition ValidPath (name : string) : bool :=
  if negb (ValidString name) then false
  else if name =? "." then true
  else forallb elem_ok (elems name).

(** [fs.FileMode] bits. *)
Definition FileMode := N.
Definition ModeDir : FileMode := N.shiftl 1%N 31%N.
Definition ModeSymlink : FileMode := N.shiftl 1%N 27%N.
Definition ModeDevice : FileMode := N.shiftl 1%N 26%N.
Definition ModeNamedPipe : FileMode := N.shiftl 1%N 25%N.
Definition ModeSocket : FileMode := N.shiftl 1%N 24%N.
Definition ModeCharDevice : FileMode := N.shiftl 1%N 21%N.
Definition ModeIrregular : FileMode := N.shiftl 1%N 19%N.
Definition ModePerm : FileMode := 511%N. (* 0777 *)
Definition ModeType : FileMode :=
  N.lor ModeDir (N.lor ModeSymlink (N.lor ModeNamedPipe
    (N.lor ModeSocket (N.lor ModeDevice (N.lor ModeCharDevice ModeIrregular))))).

Definition IsDir (m : FileMode) : bool := negb (N.land m ModeDir =? 0)%N.
Definition Type_ (m : FileMode) : FileMode := N.land m ModeType.

End fs.

(* ================================================================= *)
(** ** go-git: file modes *)

Module filemode.

Definition FileMode := N.
Definition Empty : FileMode := 0%N.
Definition Dir : FileMode := 16384%N.        (* 0040000 *)
Definition Regular : FileMode := 33188%N.    (* 0100644 *)
Definition Deprecated : FileMode := 33204%N. (* 0100664 *)
Definition Executable : FileMode := 33261%N. (* 0100755 *)
Definition Symlink : FileMode := 40960%N.    (* 0120000 *)
Definition Submodule : FileMode := 57344%N.  (* 0160000 *)

(** [FileMode.ToOSFileMode]. *)
Definition ToOSFileMode (m : FileMode) : fs.FileMode * option error :=
  if (m =? Dir)%N then (N.lor fs.ModePerm fs.ModeDir, None)
  else if (m =? Submodule)%N then (N.lor fs.ModePerm fs.ModeDir, None)
  else if (m =? Regular)%N then (420%N, None)      (* 0644 *)
  else if (m =? Deprecated)%N then (420%N, None)
  else if (m =? Executable)%N then (493%N, None)   (* 0755 *)
  else if (m =? Symlink)%N then (N.lor fs.ModePerm fs.ModeSymlink, None)
  else (0%N, Some (ErrMalformedMode m)).

End filemode.

(* ================================================================= *)
(** ** io: content streams *)

(** [io.ReadCloser], the interface of the stream a blob hands out.
    [rc_Read r n] is [r.Read(bs)] with [len(bs) = n]: the stream after the
    call, the bytes stored into [bs] and the error.  [rc_Close r] is
    [r.Close()].  What a stream does is the store's business; the adapter
    only forwards to it. *)
Class ReadCloser (R : Type) : Type := {
  rc_Read : R -> nat -> R * (list byte * option error);
  rc_Close : R -> R * option error
}.

(* ================================================================= *)
(** ** go-git: trees, entries, blobs *)

Module object.

(** [object.TreeEntry]. *)
Record TreeEntry := {
  Name : string;
  Mode : filemode.FileMode;
  Hash : hash
}.

Section Store.
Context {R : Type}.

(** An object as the store holds it, already decoded: a tree is its
    entries in stored order; a blob is its size and what [Reader()]
    gives (a fresh stream, or the error of opening one). *)
Inductive Object :=
| TreeObj (entries : list TreeEntry)
| BlobObj (size : Z) (reader : result R).

Definition obj_type (o : Object) : ObjectType :=
  match o with
  | TreeObj _ => TreeObject
  | BlobObj _ _ => BlobObject
  end.

(** [storer.EncodedObjectStorer]: the store is immutable; a hash maps
    to an object or to the error of fetching it. *)
Record Storer := { objects : hash -> result Object }.

(** [s.EncodedObject(t, h)]: an object of another type than the one
    asked for is reported as not found. *)
Definition EncodedObject (st : Storer) (t : ObjectType) (h : hash)
  : Traced (result Object) :=
  emit (EvObject t h) ;;;
  ret (match objects st h with
       | Ok o => if ObjectType_eqb (obj_type o) t then Ok o
                 else Err ErrObjectNotFound
       | Err e => Err e
       end).

(** [object.Tree]: the entries, the hash and the store [s] the tree was
    read from.  The lookup map [m] is computed from [Entries].  The path
    cache [t] is left out: it remembers, under the cleaned prefix of a
    path, the tree a walk reached.  For a path whose elements are all
    plain names (a valid path) a cached tree is the tree the walk would
    fetch again from the immutable store, so the results are those of the
    walk below and only the number of fetches can be smaller.  For a path
    with an empty, "." or ".." element the cleaned prefix can name a tree
    of an earlier walk, and the result then depends on what the view has
    walked before: the walk below is that of a tree that has walked
    nothing yet. *)
Record Tree := {
  Entries : list TreeEntry;
  TreeHash : hash;
  s : Storer
}.

(** [Tree.Decode]. *)
Definition Decode (st : Storer) (h : hash) (o : Object) : result Tree :=
  match o with
  | TreeObj es => Ok {| Entries := es; TreeHash := h; s := st |}
  | BlobObj _ _ => Err ErrUnsupportedObject
  end.

(** [Tree.entry]: [buildMap] stores the entries by name in order, so of
    two entries with one name the later is found. *)
Definition entry (t : Tree) (baseName : string) : result TreeEntry :=
  match find (fun e => Name e =? baseName) (rev (Entries t)) with
  | Some e => Ok e
  | None => Err ErrEntryNotFound
  end.

(** [Tree.dir]. *)
Definition dir (t : Tree) (baseName : string) : Traced (result Tree) :=
  match entry t baseName with
  | Err _ => ret (Err ErrDirectoryNotFound)
  | Ok e =>
      o <- EncodedObject (s t) TreeObject (Hash e) ;;
      ret (match o with
           | Err err => Err err
           | Ok o => Decode (s t) (Hash e) o
           end)
  end.

(** The loop of [Tree.FindEntry] over the path's elements: every
    element but the last is entered with [dir], the last is looked up
    with [entry]. *)
Fixpoint walk (t : Tree) (first : string) (rest : list string)
  : Traced (result TreeEntry) :=
  match rest with
  | [] => ret (entry t first)
  | next :: rest' =>
      d <- dir t first ;;
      match d with
      | Err err => ret (Err err)
      | Ok t' => walk t' next rest'
      end
  end.

(** [Tree.FindEntry]. *)
Definition FindEntry (t : Tree) (path : string) : Traced (result TreeEntry) :=
  let (first, rest) := fs.Split path in walk t first rest.

(** [object.GetTree]. *)
Definition GetTree (st : Storer) (h : hash) : Traced (result Tree) :=
  o <- EncodedObject st TreeObject h ;;
  ret (match o with
       | Err err => Err err
       | Ok o => Decode st h o
       end).

(** [Tree.Tree]: any failure of the lookup, and a missing tree object,
    are [ErrDirectoryNotFound]; other errors pass. *)
Definition Tree_ (t : Tree) (path : string) : Traced (result Tree) :=
  e <- FindEntry t path ;;
  match e with
  | Err _ => ret (Err ErrDirectoryNotFound)
  | Ok e =>
      r <- GetTree (s t) (Hash e) ;;
      ret (match r with
           | Err ErrObjectNotFound => Err ErrDirectoryNotFound
           | r => r
           end)
  end.

(** [object.Blob] and [object.File] (a name, a mode and the embedded
    blob). *)
Record Blob := {
  BlobHash : hash;
  BlobSize : Z;
  obj : Object
}.

Record File := {
  FileName : string;
  FileMode : filemode.FileMode;
  FileBlob : Blob
}.

Definition Size (f : File) : Z := BlobSize (FileBlob f).

(** [object.GetBlob] with [Blob.Decode]. *)
Definition GetBlob (st : Storer) (h : hash) : Traced (result Blob) :=
  o <- EncodedObject st BlobObject h ;;
  ret (match o with
       | Err err => Err err
       | Ok (TreeObj _) => Err ErrUnsupportedObject
       | Ok (BlobObj size rd) =>
           Ok {| BlobHash := h; BlobSize := size; obj := BlobObj size rd |}
       end).

(** [Tree.TreeEntryFile]. *)
Definition TreeEntryFile (t : Tree) (e : TreeEntry) : Traced (result File) :=
  b <- GetBlob (s t) (Hash e) ;;
  ret (match b with
       | Err err => Err err
       | Ok blob => Ok {| FileName := Name e; FileMode := Mode e; FileBlob := blob |}
       end).

(** [File.Reader], that is [Blob.Reader]: the stream of the stored
    object. *)
Definition Reader (f : File) : Traced (result R) :=
  emit (EvReader (BlobHash (FileBlob f))) ;;;
  ret (match obj (FileBlob f) with
       | BlobObj _ rd => rd
       | TreeObj _ => Err ErrUnsupportedObject
       end).

End Store.

Arguments Object R : clear implicits.
Arguments Storer R : clear implicits.
Arguments Tree R : clear implicits.
Arguments Blob R : clear implicits.
Arguments File R : clear implicits.

End object.

(* ================================================================= *)
(** ** The adapter *)

Section Adapter.
Context {R : Type} `{ReadCloser R}.

(** *** file handles ([gitFile]) *)

Record gitFile := {
  gf_tree : object.Tree R;
  gf_entry : object.TreeEntry;
  gf_mode : fs.FileMode;
  gf_file : option (object.File R);
  gf_r : option R
}.

Definition set_file (g : gitFile) (file : option (object.File R)) : gitFile :=
  {| gf_tree := gf_tree g; gf_entry := gf_entry g; gf_mode := gf_mode g;
     gf_file := file; gf_r := gf_r g |}.

Definition set_r (g : gitFile) (r : option R) : gitFile :=
  {| gf_tree := gf_tree g; gf_entry := gf_entry g; gf_mode := gf_mode g;
     gf_file := gf_file g; gf_r := r |}.

Definition newGitFile (tree : object.Tree R) (entry : object.TreeEntry)
  : option gitFile * option error :=
  let (mode, err) := filemode.ToOSFileMode (object.Mode entry) in
  match err with
  | Some err => (None, Some err)
  | None => (Some {| gf_tree := tree; gf_entry := entry; gf_mode := mode;
                     gf_file := None; gf_r := None |}, None)
  end.

Definition load (g : gitFile) : Traced (gitFile * option error) :=
  match gf_file g with
  | Some _ => ret (g, None)
  | None =>
      if fs.IsDir (gf_mode g) then ret (g, None)
      else
        f <- object.TreeEntryFile (gf_tree g) (gf_entry g) ;;
        ret (match f with
             | Ok file => (set_file g (Some file), None)
             | Err err => (set_file g None, Some err)
             end)
  end.

(** [Stat] returns the handle itself as the [fs.FileInfo]. *)
Definition Stat (g : gitFile) : Traced (gitFile * (option gitFile * option error)) :=
  l <- load g ;;
  let (g, err) := l in
  match err with
  | Some err => ret (g, (None, Some err))
  | None => ret (g, (Some g, None))
  end.

(** [Read(bs)] with [len(bs) = n].  After a successful [load] of a
    handle that is not a directory [g.file] is set, so [g.file.Reader()]
    never meets nil. *)
Definition Read (g : gitFile) (n : nat) : Traced (gitFile * (list byte * option error)) :=
  if fs.IsDir (gf_mode g) then ret (g, ([], Some EOF))
  else
    l <- load g ;;
    let (g, err) := l in
    match err with
    | Some err => ret (g, ([], Some err))
    | None =>
        o <- match gf_r g with
             | Some _ => ret (g, None)
             | None =>
                 match gf_file g with
                 | None => ret (g, Some Panic)
                 | Some file =>
                     r <- object.Reader file ;;
                     ret (match r with
                          | Err err => (g, Some err)
                          | Ok r => (set_r g (Some r), None)
                          end)
                 end
             end ;;
        let (g, err) := o in
        match err, gf_r g with
        | Some err, _ => ret (g, ([], Some err))
        | None, None => ret (g, ([], Some Panic))
        | None, Some r =>
            emit EvStreamRead ;;;
            let (r', out) := rc_Read r n in
            ret (set_r g (Some r'), out)
        end
    end.

Definition Close (g : gitFile) : Traced (gitFile * option error) :=
  match gf_r g with
  | Some r =>
      emit EvStreamClose ;;;
      let (r', err) := rc_Close r in
      ret (set_r g (Some r'), err)
  | None => ret (g, None)
  end.

Definition Info (g : gitFile) := Stat g.
Definition Type_ (g : gitFile) : fs.FileMode := fs.Type_ (gf_mode g).
Definition Name (g : gitFile) : string := object.Name (gf_entry g).

Definition Size (g : gitFile) : Z :=
  match gf_file g with
  | Some file => object.Size file
  | None => 0%Z
  end.

Definition Mode (g : gitFile) : fs.FileMode := gf_mode g.
Definition IsDir (g : gitFile) : bool := fs.IsDir (gf_mode g).

(** *** views ([gitFS]) *)

Record gitFS := { tree : object.Tree R }.

Definition New (t : object.Tree R) : gitFS := {| tree := t |}.

Definition toFSError (op name : string) (err : error) : error :=
  PathError op name
    match err with
    | ErrDirectoryNotFound | ErrEntryNotFound | ErrFileNotFound => ErrNotExist
    | err => err
    end.

Definition Open (g : gitFS) (name : string) : Traced (option gitFile * option error) :=
  if negb (fs.ValidPath name) then ret (None, Some (toFSError "open" name ErrInvalid))
  else
    e <- (if name =? "."
          then ret (Ok {| object.Name := "."; object.Mode := filemode.Dir;
                          object.Hash := object.TreeHash (tree g) |})
          else object.FindEntry (tree g) name) ;;
    match e with
    | Err err => ret (None, Some (toFSError "open" name err))
    | Ok entry =>
        let (file, err) := newGitFile (tree g) entry in
        match err with
        | Some err => ret (None, Some (toFSError "open" name err))
        | None => ret (file, None)
        end
    end.

(** The loop of [ReadDir]: [entries] holds the handles made so far; a
    failing [newGitFile] abandons them.  ([newGitFile] returns a handle
    whenever it returns no error.) *)
Fixpoint fill (name : string) (t : object.Tree R) (todo : list object.TreeEntry)
  (entries : list gitFile) : list gitFile * option error :=
  match todo with
  | [] => (entries, None)
  | e :: todo' =>
      let (file, err) := newGitFile t e in
      match err, file with
      | Some err, _ => ([], Some (toFSError "readdir" name err))
      | None, Some file => fill name t todo' (entries ++ [file])%list
      | None, None => fill name t todo' entries
      end
  end.

Definition ReadDir (g : gitFS) (name : string) : Traced (list gitFile * option error) :=
  if negb (fs.ValidPath name) then ret ([], Some (toFSError "readdir" name ErrInvalid))
  else if name =? "." then ret (fill name (tree g) (object.Entries (tree g)) [])
  else
    t <- object.Tree_ (tree g) name ;;
    match t with
    | Err err =>
        e <- object.FindEntry (tree g) name ;;
        match e with
        | Ok _ => ret ([], None) (* regular file returns nil entries *)
        | Err _ => ret ([], Some (toFSError "readdir" name err))
        end
    | Ok t => ret (fill name t (object.Entries t) [])
    end.

Definition Sub (g : gitFS) (dir : string) : Traced (option gitFS * option error) :=
  t <- object.Tree_ (tree g) dir ;;
  match t with
  | Err err => ret (None, Some (toFSError "sub" dir err))
  | Ok t => ret (Some {| tree := t |}, None)
  end.

End Adapter.

Arguments gitFile R : clear implicits.
Arguments gitFS R : clear implicits.

(* ================================================================= *)
(** ** Clients of a handle *)

(** What a caller can do with a handle, and what it observes: the size
    reported after [Stat], the bytes and error of a [Read], the error of a
    [Close]. *)
Inductive op := OpStat | OpRead (n : nat) | OpClose.

Inductive out :=
| OutStat (size : option Z) (err : option error)
| OutRead (bs : list byte) (err : option error)
| OutClose (err : option error).

(** What a client observes on a directory handle. *)
Definition dir_out (o : op) : out :=
  match o with
  | OpStat => OutStat (Some 0%Z) None
  | OpRead _ => OutRead [] (Some EOF)
  | OpClose => OutClose None
  end.

Section Clients.
Context {R : Type} `{ReadCloser R}.

Definition step (g : gitFile R) (o : op) : Traced (gitFile R * out) :=
  match o with
  | OpStat =>
      x <- Stat g ;;
      ret (fst x, OutStat (option_map Size (fst (snd x))) (snd (snd x)))
  | OpRead n =>
      x <- Read g n ;;
      ret (fst x, OutRead (fst (snd x)) (snd (snd x)))
  | OpClose =>
      x <- Close g ;;
      ret (fst x, OutClose (snd x))
  end.

(** A sequence of calls on one handle. *)
Fixpoint run (g : gitFile R) (ops : list op) : Traced (gitFile R * list out) :=
  match ops with
  | [] => ret (g, [])
  | o :: ops' =>
      x <- step g o ;;
      y <- run (fst x) ops' ;;
      ret (fst y, snd x :: snd y)
  end.

(** The handle [newGitFile] makes for an entry with a well-formed mode. *)
Definition handle_of (t : object.Tree R) (e : object.TreeEntry) : gitFile R :=
  {| gf_tree := t; gf_entry := e;
     gf_mode := fst (filemode.ToOSFileMode (object.Mode e));
     gf_file := None; gf_r := None |}.

(** The same handle, made under another tree. *)
Definition with_tree (t : object.Tree R) (f : gitFile R) : gitFile R :=
  {| gf_tree := t; gf_entry := gf_entry f; gf_mode := gf_mode f;
     gf_file := gf_file f; gf_r := gf_r f |}.

(** The tree reached by entering every element of a path with [dir]. *)
Fixpoint descend (t : object.Tree R) (first : string) (rest : list string)
  : Traced (result (object.Tree R)) :=
  d <- object.dir t first ;;
  match d with
  | Err err => ret (Err err)
  | Ok t' =>
      match rest with
      | [] => ret (Ok t')
      | next :: rest' => descend t' next rest'
      end
  end.

(** The entry a path denotes in a view: the synthetic root for ".",
    the result of the walk otherwise (the switch of [Open]). *)
Definition resolve (g : gitFS R) (name : string) : Traced (result object.TreeEntry) :=
  if name =? "."
  then ret (Ok {| object.Name := "."; object.Mode := filemode.Dir;
                  object.Hash := object.TreeHash (tree g) |})
  else object.FindEntry (tree g) name.

(** A path resolves to a regular entry: an entry is found, its mode is
    not a directory mode and the store holds a blob under its hash. *)
Definition resolves_to_file (g : gitFS R) (name : string) : Prop :=
  exists e size rd,
    value (resolve g name) = Ok e /\
    fs.IsDir (fst (filemode.ToOSFileMode (object.Mode e))) = false /\
    object.objects (object.s (tree g)) (object.Hash e) = Ok (object.BlobObj size rd).

(** A path resolves to nothing: the walk fails. *)
Definition resolves_to_nothing (g : gitFS R) (name : string) : Prop :=
  exists err, value (resolve g name) = Err err.

(** The tree [ReadDir] lists for a path: the view's root for ".", what
    [Tree.Tree] finds otherwise. *)
Definition lists_tree (g : gitFS R) (name : string) (t : object.Tree R) : Prop :=
  (name = "." /\ t = tree g) \/
  (name <> "." /\ value (object.Tree_ (tree g) name) = Ok t).

(** A path is a directory of the view: it opens as a handle that reports
    [IsDir]. *)
Definition is_directory (g : gitFS R) (d : string) : Prop :=
  exists f, value (Open g d) = (Some f, None) /\ IsDir f = true.

End Clients.

(** [path.Join(d, p)] for two valid paths: joining with a slash and
    cleaning drops an element "." and changes nothing else. *)
Definition Join (d p : string) : string :=
  if p =? "." then d else if d =? "." then p else d ++ "/" ++ p.

(** Sorted by name, bytewise, as Go compares strings. *)
Fixpoint sorted_by (le : string -> string -> bool) (l : list string) : bool :=
  match l with
  | a :: (b :: _) as l' => le a b && sorted_by le l'
  | _ => true
  end.

(** The name under which Git orders a tree's entry: a directory sorts as
    if its name ended in a slash. *)
Definition git_sort_key (e : object.TreeEntry) : string :=
  if (object.Mode e =? filemode.Dir)%N then object.Name e ++ "/" else object.Name e.

(** The error is a [*fs.PathError], the only error value that carries an
    operation name and a path. *)
Definition is_PathError (e : error) : bool :=
  match e with
  | PathError _ _ _ => true
  | _ => false
  end.

Definition is_load (e : event) : bool :=
  match e with EvObject _ _ => true | _ => false end.

(** The number of object fetches in a trace. *)
Definition loads (l : list event) : nat := List.length (filter is_load l).

(* ================================================================= *)
(** ** Streams and snapshots to run the code on *)

(** The stream of go-git's in-memory objects: a [bytes.Reader] behind a
    closer that does nothing.  The state is what is left to read. *)
Definition memReader := list byte.

#[export] Instance memReader_ReadCloser : ReadCloser memReader := {
  rc_Read r n :=
    match r with
    | [] => ([], ([], Some EOF))
    | _ => (skipn n r, (firstn n r, None))
    end;
  rc_Close r := (r, None)
}.

(** A stream that behaves as an open file does ([*os.File]): once closed,
    closing again fails, and so does reading.  A store that streams large
    objects from disk hands out a stream whose second [Close] fails in
    this way; what such a stream does on [Read] (buffering, [io.EOF] with
    the last bytes) is not modelled here. *)
Record fileReader := { fr_rest : list byte; fr_closed : bool }.

Definition ErrClosed : error := ErrBackend "file already closed".

#[export] Instance fileReader_ReadCloser : ReadCloser fileReader := {
  rc_Read r n :=
    if fr_closed r then (r, ([], Some ErrClosed))
    else match fr_rest r with
         | [] => (r, ([], Some EOF))
         | rest => ({| fr_rest := skipn n rest; fr_closed := false |}, (firstn n rest, None))
         end;
  rc_Close r :=
    if fr_closed r then (r, Some ErrClosed)
    else ({| fr_rest := fr_rest r; fr_closed := true |}, None)
}.

Module sample.
Import object.

Section Snapshot.
Context {R : Type}.
(** How the store opens a stream on stored bytes. *)
Variable open : list byte -> result R.

Definition blob (content : string) : Object R :=
  BlobObj (Z.of_nat (String.length content)) (open (list_byte_of_string content)).

Definition file (name : string) (h : hash) : TreeEntry :=
  {| Name := name; Mode := filemode.Regular; Hash := h |}.
Definition subdir (name : string) (h : hash) : TreeEntry :=
  {| Name := name; Mode := filemode.Dir; Hash := h |}.

(** The snapshot of the repository's test: README.md,
    dir1/dir11/dir11.txt, dir1/dir12/dir12.txt and
    dir1/dir12/dir121/empty.txt.  Hash 9 is an entry whose blob the
    store has lost. *)
Definition objects_of (h : hash) : result (Object R) :=
  match h with
  | 1%N => Ok (blob "# README")
  | 2%N => Ok (blob "dir11")
  | 3%N => Ok (blob "dir12")
  | 4%N => Ok (blob "")
  | 10%N => Ok (TreeObj [file "README.md" 1; subdir "dir1" 11])
  | 11%N => Ok (TreeObj [subdir "dir11" 12; subdir "dir12" 13])
  | 12%N => Ok (TreeObj [file "dir11.txt" 2])
  | 13%N => Ok (TreeObj [file "dir12.txt" 3; subdir "dir121" 14])
  | 14%N => Ok (TreeObj [file "empty.txt" 4])
  (* a tree listing a directory foo next to a file foo.txt, in the
     order Git stores them *)
  | 20%N => Ok (TreeObj [file "foo.txt" 2; subdir "foo" 12])
  (* a tree listing a file whose blob is missing *)
  | 21%N => Ok (TreeObj [file "lost" 9])
  | _ => Err ErrObjectNotFound
  end.

Definition store : Storer R := {| objects := objects_of |}.

Definition tree_at (h : hash) : Tree R :=
  match objects_of h with
  | Ok (TreeObj es) => {| Entries := es; TreeHash := h; s := store |}
  | _ => {| Entries := []; TreeHash := h; s := store |}
  end.

Definition root : Tree R := tree_at 10.
Definition foo_tree : Tree R := tree_at 20.
Definition lost_tree : Tree R := tree_at 21.
End Snapshot.

Definition mem : list byte -> result memReader := fun bs => Ok bs.
Definition disk : list byte -> result fileReader :=
  fun bs => Ok {| fr_rest := bs; fr_closed := false |}.

(** The views of the test snapshot, over in-memory and over file-backed
    streams, the view of the tree with foo and foo.txt, and the view of
    the tree with the lost blob. *)
Definition view : gitFS memReader := New (root mem).
Definition disk_view : gitFS fileReader := New (root disk).
Definition foo_view : gitFS memReader := New (foo_tree mem).
Definition lost_view : gitFS memReader := New (lost_tree mem).

(** Handles as [newGitFile] makes them: README.md over both kinds of
    stream, the directory dir1, and the file whose blob is lost. *)
Definition readme : gitFile memReader := handle_of (root mem) (file "README.md" 1).
Definition readme_disk : gitFile fileReader := handle_of (root disk) (file "README.md" 1).
Definition dir1 : gitFile memReader := handle_of (root mem) (subdir "dir1" 11).
Definition lost : gitFile memReader := handle_of (lost_tree mem) (file "lost" 9).
End sample.

(* ================================================================= *)
(** ** Further observations and snapshots *)

(** One of go-git's three not-found sentinels, which [toFSError]
    replaces. *)
Definition not_found_sentinel (e : error) : bool :=
  match e with
  | ErrDirectoryNotFound | ErrEntryNotFound | ErrFileNotFound => true
  | _ => false
  end.

(** The access fetches a tree object. *)
Definition is_tree_fetch (e : event) : bool :=
  match e with
  | EvObject TreeObject _ => true
  | _ => false
  end.

Definition is_open (e : event) : bool :=
  match e with EvReader _ => true | _ => false end.

(** The number of content streams opened in a trace. *)
Definition opens (l : list event) : nat := List.length (filter is_open l).

(** The bytes a sequence of calls delivered, in order. *)
Fixpoint bytes_of (outs : list out) : list byte :=
  match outs with
  | [] => []
  | OutRead bs _ :: outs' => (bs ++ bytes_of outs')%list
  | _ :: outs' => bytes_of outs'
  end.

(** The file an entry's blob loads as. *)
Definition file_of {R : Type} (e : object.TreeEntry) (size : Z) (rd : result R)
  : object.File R :=
  {| object.FileName := object.Name e; object.FileMode := object.Mode e;
     object.FileBlob := {| object.BlobHash := object.Hash e; object.BlobSize := size;
                           object.obj := object.BlobObj size rd |} |}.

(** Two results of one operation [op], called on the paths [n1] and [n2],
    agree: both succeed with the same value, or both fail, with nothing
    returned but the same cause under the two paths. *)
Definition same_outcome {A : Type} (op n1 n2 : string) (r1 r2 : A * option error) : Prop :=
  fst r1 = fst r2 /\
  match snd r1, snd r2 with
  | None, None => True
  | Some e1, Some e2 => exists c, e1 = toFSError op n1 c /\ e2 = toFSError op n2 c
  | _, _ => False
  end.

Module damaged.
Import object.

(** A snapshot with defects: the directory gone, whose tree object the
    store cannot read; the entry odd, whose mode is none of Git's; the
    file mute, whose content stream fails to open. *)
Definition objects_of (h : hash) : result (Object memReader) :=
  match h with
  | 1%N => Ok (BlobObj 3 (Ok (list_byte_of_string "abc")))
  | 2%N => Ok (BlobObj 3 (Err (ErrBackend "inflate failed")))
  | 10%N => Ok (TreeObj [{| Name := "a.txt"; Mode := filemode.Regular; Hash := 1 |};
                        {| Name := "gone"; Mode := filemode.Dir; Hash := 30 |};
                        {| Name := "mute"; Mode := filemode.Regular; Hash := 2 |};
                        {| Name := "sub"; Mode := filemode.Dir; Hash := 11 |}])
  | 11%N => Ok (TreeObj [{| Name := "ok.txt"; Mode := filemode.Regular; Hash := 1 |};
                        {| Name := "odd"; Mode := 4242%N; Hash := 1 |};
                        {| Name := "z.txt"; Mode := filemode.Regular; Hash := 1 |}])
  | 30%N => Err (ErrBackend "unexpected EOF")
  | _ => Err ErrObjectNotFound
  end.

Definition store : Storer memReader := {| objects := objects_of |}.

Definition root : Tree memReader :=
  {| Entries := [{| Name := "a.txt"; Mode := filemode.Regular; Hash := 1 |};
                 {| Name := "gone"; Mode := filemode.Dir; Hash := 30 |};
                 {| Name := "mute"; Mode := filemode.Regular; Hash := 2 |};
                 {| Name := "sub"; Mode := filemode.Dir; Hash := 11 |}];
     TreeHash := 10; s := store |}.

Definition view : gitFS memReader := New root.

End damaged.

(* ================================================================= *)
(** * Properties *)

(** ** The trace monad *)

Lemma value_bind {A B} (m : Traced A) (k : A -> Traced B) :
  value (bind m k) = value (k (value m)).
Proof. reflexivity. Qed.

Lemma accesses_bind {A B} (m : Traced A) (k : A -> Traced B) :
  accesses (bind m k) = (accesses m ++ accesses (k (value m)))%list.
Proof. reflexivity. Qed.

Lemma value_ret {A} (a : A) : value (ret a) = a.
Proof. reflexivity. Qed.

Lemma accesses_ret {A} (a : A) : accesses (ret a) = [].
Proof. reflexivity. Qed.

Lemma traced_eta {A} (m : Traced A) : m = (value m, accesses m).
Proof. destruct m; reflexivity. Qed.

Ltac tr := repeat (rewrite ?value_bind, ?accesses_bind, ?value_ret, ?accesses_ret; cbn [fst snd]).

(** ** Path syntax *)

Lemma elems_dot : fs.elems "." = ["."].
Proof. reflexivity. Qed.

Lemma ValidPath_elems (name : string) :
  fs.ValidPath name = true -> name <> "." ->
  forallb fs.elem_ok (fs.elems name) = true.
Proof.
  unfold fs.ValidPath. intros Hv Hne.
  destruct (negb (fs.ValidString name)); [discriminate|].
  destruct (String.eqb_spec name "."); [contradiction | exact Hv].
Qed.

(** A path with an empty, "." or ".." element, other than the path "."
    itself, is not valid. *)
Lemma bad_elem_invalid (name e : string) :
  In e (fs.elems name) -> e = "" \/ e = "." \/ e = ".." ->
  name <> "." -> fs.ValidPath name = false.
Proof.
  intros Hin Hbad Hne.
  destruct (fs.ValidPath name) eqn:Hv; [|reflexivity].
  pose proof (ValidPath_elems name Hv Hne) as Hall.
  rewrite forallb_forall in Hall. specialize (Hall e Hin).
  destruct Hbad as [-> | [-> | ->]]; discriminate.
Qed.

Lemma traversal_invalid (name : string) :
  In ".." (fs.elems name) -> fs.ValidPath name = false.
Proof.
  intros Hin. apply (bad_elem_invalid name ".." Hin); [auto|].
  intros ->. rewrite elems_dot in Hin. destruct Hin as [Hin | []]. discriminate.
Qed.

Section Views.
Context {R : Type} `{ReadCloser R}.
Implicit Types (g : gitFS R) (f : gitFile R) (t : object.Tree R).

(** [Open] rejects every invalid path with [ErrInvalid], before any
    access to the store. *)
Lemma Open_InvalidPath g name :
  fs.ValidPath name = false ->
  Open g name = ((None, Some (PathError "open" name ErrInvalid)), []).
Proof. intros Hv. unfold Open. rewrite Hv. reflexivity. Qed.

(** So does [ReadDir]. *)
Lemma ReadDir_InvalidPath g name :
  fs.ValidPath name = false ->
  ReadDir g name = (([], Some (PathError "readdir" name ErrInvalid)), []).
Proof. intros Hv. unfold ReadDir. rewrite Hv. reflexivity. Qed.

Lemma find_none_names (es : list object.TreeEntry) (n : string) :
  (forall e, In e es -> object.Name e <> n) ->
  find (fun e => object.Name e =? n) (rev es) = None.
Proof.
  intros Hno. destruct (find _ _) as [e|] eqn:Hf; [|reflexivity].
  apply find_some in Hf. destruct Hf as [Hin Heq].
  apply in_rev in Hin. apply String.eqb_eq in Heq.
  exfalso. exact (Hno e Hin Heq).
Qed.

(** [Sub] has no case for ".": on a tree without an entry of that name
    it reports the root as not found. *)
Lemma Sub_dot_NotFound g :
  (forall e, In e (object.Entries (tree g)) -> object.Name e <> ".") ->
  Sub g "." = ((None, Some (PathError "sub" "." ErrNotExist)), []).
Proof.
  intros Hno. unfold Sub, object.Tree_, object.FindEntry. cbn.
  unfold object.entry. rewrite (find_none_names _ _ Hno). reflexivity.
Qed.

Lemma newGitFile_cases t e :
  (snd (filemode.ToOSFileMode (object.Mode e)) = None /\
   newGitFile t e = (Some (handle_of t e), None)) \/
  (exists err, snd (filemode.ToOSFileMode (object.Mode e)) = Some err /\
   newGitFile t e = (None, Some err)).
Proof.
  unfold newGitFile, handle_of.
  destruct (filemode.ToOSFileMode (object.Mode e)) as [m [err|]]; cbn.
  - right. exists err. auto.
  - left. auto.
Qed.

Lemma fill_ok name t todo : forall entries,
  (forall e, In e todo -> snd (filemode.ToOSFileMode (object.Mode e)) = None) ->
  fill name t todo entries = ((entries ++ map (handle_of t) todo)%list, None).
Proof.
  induction todo as [|e todo IH]; intros entries Hok; cbn [fill map].
  - rewrite app_nil_r. reflexivity.
  - destruct (newGitFile_cases t e) as [[_ ->] | [err [He _]]].
    + rewrite IH by (intros; apply Hok; right; assumption).
      rewrite <- app_assoc. reflexivity.
    + rewrite (Hok e (or_introl eq_refl)) in He. discriminate.
Qed.

(** A failing listing returns no handle at all. *)
Lemma fill_all_or_nothing name t todo : forall entries err,
  snd (fill name t todo entries) = Some err ->
  fst (fill name t todo entries) = [] /\
  exists cause, err = toFSError "readdir" name cause.
Proof.
  induction todo as [|e todo IH]; intros entries err; cbn [fill].
  - discriminate.
  - destruct (newGitFile_cases t e) as [[_ ->] | [err' [_ ->]]].
    + apply IH.
    + cbn. intros [= <-]. eauto.
Qed.

(** Listing the root gives a handle per entry of the tree, in the order
    the tree stores them: exactly the immediate children. *)
Lemma ReadDir_root_children g :
  (forall e, In e (object.Entries (tree g)) ->
             snd (filemode.ToOSFileMode (object.Mode e)) = None) ->
  ReadDir g "." = ((map (handle_of (tree g)) (object.Entries (tree g)), None), []).
Proof.
  intros Hok. unfold ReadDir. cbn. rewrite (fill_ok _ _ _ [] Hok). reflexivity.
Qed.

(** The same for a path [Tree.Tree] resolves to a tree. *)
Lemma ReadDir_children g name t :
  fs.ValidPath name = true -> name <> "." ->
  value (object.Tree_ (tree g) name) = Ok t ->
  (forall e, In e (object.Entries t) ->
             snd (filemode.ToOSFileMode (object.Mode e)) = None) ->
  value (ReadDir g name) = (map (handle_of t) (object.Entries t), None).
Proof.
  intros Hv Hne Ht Hok. unfold ReadDir. rewrite Hv. cbn [negb].
  destruct (String.eqb_spec name "."); [contradiction|].
  tr. rewrite Ht. tr. rewrite (fill_ok _ _ _ [] Hok). reflexivity.
Qed.

End Views.

(** ** Listing a file, listing nothing *)

Section Listing.
Context {R : Type} `{ReadCloser R}.
Implicit Types (g : gitFS R).

Lemma resolve_not_dot g name :
  name <> "." -> resolve g name = object.FindEntry (tree g) name.
Proof.
  intros Hne. unfold resolve.
  destruct (String.eqb_spec name "."); [contradiction | reflexivity].
Qed.

Lemma GetTree_blob (st : object.Storer R) h size rd :
  object.objects st h = Ok (object.BlobObj size rd) ->
  value (object.GetTree st h) = Err ErrObjectNotFound.
Proof.
  intros Ho. unfold object.GetTree, object.EncodedObject. tr.
  rewrite Ho. reflexivity.
Qed.

(** C4. For a valid path that resolves to a regular (non-directory) entry
    [ReadDir] returns the empty list and no error; for a valid path that
    resolves to nothing it fails with [ErrNotExist], wrapped for
    "readdir" and the path. *)
Theorem ReadDir_file_or_nothing g name :
  fs.ValidPath name = true ->
  (resolves_to_file g name -> value (ReadDir g name) = ([], None)) /\
  (resolves_to_nothing g name ->
   value (ReadDir g name) = ([], Some (PathError "readdir" name ErrNotExist))).
Proof.
  intros Hv. split.
  - intros (e & size & rd & Hres & Hmode & Hblob).
    destruct (String.eqb_spec name ".") as [-> | Hne].
    { cbn in Hres. injection Hres as <-. discriminate Hmode. }
    rewrite (resolve_not_dot g name Hne) in Hres.
    unfold ReadDir. rewrite Hv. cbn [negb].
    destruct (String.eqb_spec name "."); [contradiction|].
    unfold object.Tree_. tr. rewrite Hres. tr.
    rewrite (GetTree_blob _ _ _ _ Hblob). tr. rewrite Hres. reflexivity.
  - intros (err & Hres).
    destruct (String.eqb_spec name ".") as [-> | Hne].
    { cbn in Hres. discriminate Hres. }
    rewrite (resolve_not_dot g name Hne) in Hres.
    unfold ReadDir. rewrite Hv. cbn [negb].
    destruct (String.eqb_spec name "."); [contradiction|].
    unfold object.Tree_. tr. rewrite Hres. tr. rewrite Hres. reflexivity.
Qed.

End Listing.

(** On the test snapshot: dir1/dir11/dir11.txt is a file, dir1/dir11/x is
    nothing. *)
Lemma ReadDir_file_or_nothing_witness :
  value (ReadDir sample.view "dir1/dir11/dir11.txt") = ([], None) /\
  value (ReadDir sample.view "dir1/dir11/x")
  = ([], Some (PathError "readdir" "dir1/dir11/x" ErrNotExist)).
Proof.
  split.
  - apply (proj1 (ReadDir_file_or_nothing sample.view "dir1/dir11/dir11.txt" eq_refl)).
    exists (sample.file "dir11.txt" 2), 5%Z, (sample.mem (list_byte_of_string "dir11")).
    repeat split; reflexivity.
  - apply (proj2 (ReadDir_file_or_nothing sample.view "dir1/dir11/x" eq_refl)).
    exists ErrEntryNotFound. reflexivity.
Defined.

(** ** The view's own [Sub] and the order of a listing, run *)

(** C1. A path with a traversal element is rejected with [ErrInvalid] by
    [Open] and by [ReadDir]; [Sub], which does not check the path, walks
    it and reports [ErrNotExist]. *)
Theorem Sub_traversal_is_NotExist :
  fs.ValidPath "dir1/.." = false /\
  value (Open sample.view "dir1/..")
  = (None, Some (PathError "open" "dir1/.." ErrInvalid)) /\
  value (ReadDir sample.view "dir1/..")
  = ([], Some (PathError "readdir" "dir1/.." ErrInvalid)) /\
  value (Sub sample.view "dir1/..")
  = (None, Some (PathError "sub" "dir1/.." ErrNotExist)).
Proof. repeat split; reflexivity. Qed.

(** C2. [Open] and [ReadDir] serve "." from the view's root; [Sub], which
    has no case for it, looks "." up as an entry and reports
    [ErrNotExist]. *)
Theorem Sub_dot_is_NotExist :
  fst (value (Open sample.view "."))
  = Some (handle_of (tree sample.view)
            {| object.Name := "."; object.Mode := filemode.Dir; object.Hash := 10 |}) /\
  map Name (fst (value (ReadDir sample.view "."))) = ["README.md"; "dir1"] /\
  value (Sub sample.view ".") = (None, Some (PathError "sub" "." ErrNotExist)).
Proof. repeat split; reflexivity. Qed.

(** C3. [ReadDir] returns the children in the order the tree stores them.
    Git stores a directory as if its name ended in a slash, so foo.txt
    comes before the directory foo: the listing is not sorted by name. *)
Theorem ReadDir_keeps_stored_order :
  sorted_by String.leb (map git_sort_key (object.Entries (tree sample.foo_view))) = true /\
  map Name (fst (value (ReadDir sample.foo_view "."))) = ["foo.txt"; "foo"] /\
  snd (value (ReadDir sample.foo_view ".")) = None /\
  sorted_by String.leb (map Name (fst (value (ReadDir sample.foo_view ".")))) = false.
Proof. repeat split; reflexivity. Qed.

(** ** File handles *)

Lemma loads_app (a b : list event) : loads (a ++ b) = loads a + loads b.
Proof. unfold loads. rewrite filter_app, length_app. reflexivity. Qed.

Section Handles.
Context {R : Type} `{ReadCloser R}.
Implicit Types (g : gitFS R) (f : gitFile R) (t : object.Tree R).

Lemma newGitFile_fresh t e f :
  newGitFile t e = (Some f, None) -> f = handle_of t e.
Proof.
  destruct (newGitFile_cases t e) as [[_ ->] | [err [_ ->]]]; congruence.
Qed.

Lemma load_loaded f file :
  gf_file f = Some file -> load f = ((f, None), []).
Proof. intros Hf. unfold load. rewrite Hf. reflexivity. Qed.

Lemma load_dir f :
  IsDir f = true -> load f = ((f, None), []).
Proof.
  unfold IsDir. intros Hd. unfold load. rewrite Hd.
  destruct (gf_file f); reflexivity.
Qed.

Lemma run_cons f o ops f1 o1 l1 f2 os l2 :
  step f o = ((f1, o1), l1) -> run f1 ops = ((f2, os), l2) ->
  run f (o :: ops) = ((f2, o1 :: os), (l1 ++ l2)%list).
Proof.
  intros Hs Hr. cbn [run]. rewrite Hs. unfold bind at 1. cbn [fst snd].
  rewrite Hr. unfold bind, ret. cbn [fst snd]. rewrite app_nil_r. reflexivity.
Qed.

Lemma step_Close f f1 err l :
  Close f = ((f1, err), l) -> step f OpClose = ((f1, OutClose err), l).
Proof.
  intros Hc. unfold step. rewrite Hc. unfold bind, ret. cbn [fst snd].
  rewrite app_nil_r. reflexivity.
Qed.

Lemma step_dir f o :
  gf_file f = None -> gf_r f = None -> IsDir f = true ->
  step f o = ((f, dir_out o), []).
Proof.
  intros Hf Hr Hd. destruct o; unfold step.
  - unfold Stat. rewrite (load_dir f Hd). unfold bind, ret. cbn [fst snd option_map app].
    unfold Size. rewrite Hf. reflexivity.
  - unfold Read. unfold IsDir in Hd. rewrite Hd. reflexivity.
  - unfold Close. rewrite Hr. reflexivity.
Qed.

Lemma run_dir f ops :
  gf_file f = None -> gf_r f = None -> IsDir f = true ->
  run f ops = ((f, map dir_out ops), []).
Proof.
  intros Hf Hr Hd. induction ops as [|o ops IH]; cbn [run map].
  - reflexivity.
  - rewrite (step_dir f o Hf Hr Hd). unfold bind at 1. cbn [fst snd].
    rewrite IH. reflexivity.
Qed.

(** C7. A handle made for a directory entry, and the handle [Open] makes
    for ".", report size 0 on every [Stat] and end-of-stream with no
    bytes on every [Read], stay as they are, and make no access to the
    store; opening "." makes none either. *)
Theorem directory_handle_is_empty g t (e : object.TreeEntry) f (ops : list op) :
  (newGitFile t e = (Some f, None) -> IsDir f = true ->
   run f ops = ((f, map dir_out ops), [])) /\
  (exists root, Open g "." = ((Some root, None), []) /\
                IsDir root = true /\ Name root = "." /\
                run root ops = ((root, map dir_out ops), [])).
Proof.
  split.
  - intros Hnew Hd. rewrite (newGitFile_fresh t e f Hnew) in *.
    apply run_dir; auto.
  - eexists. split; [reflexivity|]. split; [reflexivity|]. split; [reflexivity|].
    apply run_dir; reflexivity.
Qed.

End Handles.

(** On the test snapshot: the handle of dir1, and of the root. *)
Lemma directory_handle_is_empty_witness :
  run sample.dir1 [OpStat; OpRead 8; OpClose; OpStat]
  = ((sample.dir1,
      [OutStat (Some 0%Z) None; OutRead [] (Some EOF); OutClose None; OutStat (Some 0%Z) None]),
     []).
Proof.
  apply (proj1 (directory_handle_is_empty sample.view (tree sample.view)
                  (sample.subdir "dir1" 11) _ [OpStat; OpRead 8; OpClose; OpStat]));
    reflexivity.
Defined.

Section Caching.
Context {R : Type} `{ReadCloser R}.
Implicit Types (g : gitFS R) (f : gitFile R) (t : object.Tree R).

(** Once [g.file] is set no call changes it, and no call fetches an
    object again. *)
Lemma step_loaded f file o :
  gf_file f = Some file ->
  gf_file (fst (value (step f o))) = Some file /\
  loads (accesses (step f o)) = 0.
Proof.
  intros Hf. destruct o; unfold step.
  - unfold Stat. rewrite (load_loaded f file Hf). cbn. auto.
  - unfold Read. destruct (fs.IsDir (gf_mode f)); [cbn; auto|].
    rewrite (load_loaded f file Hf).
    unfold bind, ret, emit, object.Reader, value, accesses. cbn [fst snd].
    rewrite Hf.
    destruct (gf_r f) as [r|] eqn:Hr; cbn [fst snd]; rewrite ?Hr.
    + destruct (rc_Read r n) as [r' o]. cbn. auto.
    + destruct (object.obj (object.FileBlob file)) as [es | size [r|err]];
        cbn [fst snd gf_r set_r]; rewrite ?Hr; cbn; auto.
      destruct (rc_Read r n) as [r' o]. cbn. auto.
  - unfold Close. destruct (gf_r f) as [r|]; [|cbn; auto].
    unfold bind, ret, emit, value, accesses. cbn [fst snd].
    destruct (rc_Close r) as [r' o]. cbn. auto.
Qed.

Lemma run_loaded f file ops :
  gf_file f = Some file ->
  gf_file (fst (value (run f ops))) = Some file /\
  loads (accesses (run f ops)) = 0.
Proof.
  revert f. induction ops as [|o ops IH]; intros f Hf; cbn [run].
  - cbn. auto.
  - destruct (step_loaded f file o Hf) as [Hf1 Hl1].
    destruct (IH _ Hf1) as [Hf2 Hl2].
    tr. rewrite !loads_app, Hl1, Hl2. auto.
Qed.

(** A successful [Stat] on a handle that is not a directory leaves
    [g.file] set, and fetches at most one object. *)
Lemma Stat_loads f f1 info :
  IsDir f = false ->
  value (Stat f) = (f1, (Some info, None)) ->
  (exists file, gf_file f1 = Some file) /\ loads (accesses (Stat f)) <= 1.
Proof.
  unfold IsDir, Stat, load. intros Hd.
  destruct (gf_file f) as [file|] eqn:Hf.
  - cbn. intros [= <- _]. split; [eauto | lia].
  - rewrite Hd.
    unfold object.TreeEntryFile, object.GetBlob, object.EncodedObject.
    tr.
    destruct (object.objects _ _) as [[es|size rd]|err]; cbn;
      try discriminate.
    intros [= <- _]. cbn. split; [eauto | lia].
Qed.

(** C8. On a handle that is not a directory, a [Stat] that succeeds has
    fetched the blob at most once, and from then on, whatever is called on
    the handle, no object is fetched again: a later [Stat] makes no access
    to the store, leaves the handle as it is and reports the size that
    was cached. *)
Theorem Stat_loads_once f f1 info (ops : list op) :
  IsDir f = false ->
  value (Stat f) = (f1, (Some info, None)) ->
  loads (accesses (Stat f)) <= 1 /\
  loads (accesses (run f1 ops)) = 0 /\
  Stat (fst (value (run f1 ops)))
  = ((fst (value (run f1 ops)), (Some (fst (value (run f1 ops))), None)), []) /\
  Size (fst (value (run f1 ops))) = Size f1.
Proof.
  intros Hd Hs. destruct (Stat_loads f f1 info Hd Hs) as [[file Hf] Hl].
  destruct (run_loaded f1 file ops Hf) as [Hf2 Hl2].
  repeat split; auto.
  - unfold Stat. rewrite (load_loaded _ file Hf2). reflexivity.
  - unfold Size. rewrite Hf, Hf2. reflexivity.
Qed.

(** C10. A handle just made for an entry that is not a directory reports
    [Size] 0, and still does after any number of [Close] calls; when the
    store holds the entry's blob, [Size] is the blob's size after a [Stat]
    and after a [Read]; when the store cannot give the blob, [Size] stays
    0. *)
Theorem Size_is_zero_until_loaded t (e : object.TreeEntry) f :
  newGitFile t e = (Some f, None) -> IsDir f = false ->
  Size f = 0%Z /\
  (forall k, Size (fst (value (run f (repeat OpClose k)))) = 0%Z) /\
  (forall size rd,
      object.objects (object.s t) (object.Hash e) = Ok (object.BlobObj size rd) ->
      Size (fst (value (Stat f))) = size /\
      forall n, Size (fst (value (Read f n))) = size) /\
  (forall err,
      object.objects (object.s t) (object.Hash e) = Err err ->
      Size (fst (value (Stat f))) = 0%Z /\
      forall n, Size (fst (value (Read f n))) = 0%Z).
Proof.
  intros Hnew Hd. rewrite (newGitFile_fresh t e f Hnew) in *.
  unfold IsDir in Hd. cbn [gf_mode handle_of] in Hd.
  split; [reflexivity|]. split.
  { intros k. induction k as [|k IH]; [reflexivity|].
    cbn [repeat run]. tr. exact IH. }
  split.
  - intros size rd Ho. split.
    + unfold Stat, load. cbn [gf_file handle_of gf_mode]. rewrite Hd.
      unfold object.TreeEntryFile, object.GetBlob, object.EncodedObject. tr.
      cbn [gf_tree gf_entry handle_of]. rewrite Ho. reflexivity.
    + intros n. unfold Read, load. cbn [gf_file handle_of gf_mode]. rewrite Hd.
      unfold object.TreeEntryFile, object.GetBlob, object.EncodedObject,
        object.Reader. tr.
      cbn [gf_tree gf_entry handle_of]. rewrite Ho.
      unfold bind, ret, emit, value. cbn.
      destruct rd as [r|err]; cbn; [|reflexivity].
      destruct (rc_Read r n) as [r' o]. reflexivity.
  - intros err Ho. split.
    + unfold Stat, load. cbn [gf_file handle_of gf_mode]. rewrite Hd.
      unfold object.TreeEntryFile, object.GetBlob, object.EncodedObject. tr.
      cbn [gf_tree gf_entry handle_of]. rewrite Ho. reflexivity.
    + intros n. unfold Read, load. cbn [gf_file handle_of gf_mode]. rewrite Hd.
      unfold object.TreeEntryFile, object.GetBlob, object.EncodedObject. tr.
      cbn [gf_tree gf_entry handle_of]. rewrite Ho. reflexivity.
Qed.

End Caching.

(** On the test snapshot: README.md, whose blob has 8 bytes. *)
Lemma Stat_loads_once_witness :
  loads (accesses (Stat sample.readme)) <= 1 /\
  loads (accesses (run (fst (value (Stat sample.readme))) [OpRead 4; OpStat; OpClose; OpStat])) = 0 /\
  Size (fst (value (run (fst (value (Stat sample.readme))) [OpRead 4; OpStat; OpClose; OpStat])))
  = 8%Z.
Proof.
  destruct (Stat_loads_once sample.readme (fst (value (Stat sample.readme)))
              (fst (value (Stat sample.readme))) [OpRead 4; OpStat; OpClose; OpStat]
              eq_refl eq_refl) as [H1 [H2 [_ H4]]].
  split; [exact H1|]. split; [exact H2|]. rewrite H4. reflexivity.
Defined.

Lemma Size_is_zero_until_loaded_witness :
  Size sample.readme = 0%Z /\
  Size (fst (value (Stat sample.readme))) = 8%Z /\
  Size (fst (value (Read sample.readme 4))) = 8%Z /\
  Size (fst (value (Stat sample.lost))) = 0%Z.
Proof.
  destruct (Size_is_zero_until_loaded (sample.root sample.mem)
              (sample.file "README.md" 1) sample.readme eq_refl eq_refl)
    as [H0 [_ [H2 _]]].
  destruct (H2 8%Z (sample.mem (list_byte_of_string "# README")) eq_refl) as [Hs Hr].
  destruct (Size_is_zero_until_loaded (sample.lost_tree sample.mem)
              (sample.file "lost" 9) sample.lost eq_refl eq_refl)
    as [_ [_ [_ H3]]].
  destruct (H3 ErrObjectNotFound eq_refl) as [Hl _].
  split; [exact H0 | split; [exact Hs | split; [exact (Hr 4) | exact Hl]]].
Defined.

(** ** Closing *)

Section Closing.
Context {R : Type} `{ReadCloser R}.
Implicit Types (f : gitFile R).

Lemma set_r_same f : set_r f (gf_r f) = f.
Proof. destruct f; reflexivity. Qed.

Lemma set_file_same f : set_file f (gf_file f) = f.
Proof. destruct f; reflexivity. Qed.

Lemma Close_unopened f :
  gf_r f = None -> Close f = ((f, None), []).
Proof. intros Hr. unfold Close. rewrite Hr. reflexivity. Qed.

Lemma Close_opened f r :
  gf_r f = Some r ->
  Close f = ((set_r f (Some (fst (rc_Close r))), snd (rc_Close r)), [EvStreamClose]).
Proof.
  intros Hr. unfold Close. rewrite Hr.
  unfold bind, emit, ret. cbn [fst snd].
  destruct (rc_Close r) as [r' err]. reflexivity.
Qed.

(** C9, as the code has it. [Close] on a handle whose stream was never
    opened does nothing and returns no error, any number of times.  On a
    handle with an open stream it calls the stream's [Close], keeps the
    stream, and returns what the stream returned; a second [Close] calls
    the stream's [Close] again, on the closed stream, and returns what
    that returns. *)
Theorem Close_forwards_to_stream f :
  (gf_r f = None ->
   forall k, run f (repeat OpClose k) = ((f, repeat (OutClose None) k), [])) /\
  (forall r, gf_r f = Some r ->
   Close f = ((set_r f (Some (fst (rc_Close r))), snd (rc_Close r)), [EvStreamClose]) /\
   run f [OpClose; OpClose]
   = ((set_r f (Some (fst (rc_Close (fst (rc_Close r))))),
       [OutClose (snd (rc_Close r)); OutClose (snd (rc_Close (fst (rc_Close r))))]),
      [EvStreamClose; EvStreamClose])).
Proof.
  split.
  - intros Hr k. induction k as [|k IH]; [reflexivity|].
    exact (run_cons _ _ _ _ _ _ _ _ _ (step_Close _ _ _ _ (Close_unopened f Hr)) IH).
  - intros r Hr. split; [exact (Close_opened f r Hr)|].
    refine (run_cons _ _ _ _ _ _ _ _ _ (step_Close _ _ _ _ (Close_opened f r Hr)) _).
    refine (run_cons _ _ _ _ _ _ _ _ _
              (step_Close _ _ _ _
                 (Close_opened (set_r f (Some (fst (rc_Close r)))) (fst (rc_Close r)) eq_refl)) _).
    reflexivity.
Qed.

End Closing.

(** C9 fails on a file-backed stream: the second [Close] of README.md
    reports the file as already closed. *)
Lemma second_Close_reports_closed_file :
  snd (value (run sample.readme_disk [OpRead 4; OpClose; OpClose]))
  = [OutRead (list_byte_of_string "# RE") None; OutClose None; OutClose (Some ErrClosed)].
Proof. reflexivity. Qed.

(** On in-memory streams, whose [Close] does nothing: both closes succeed,
    before and after the stream was opened. *)
Lemma Close_forwards_to_stream_witness :
  run sample.readme (repeat OpClose 2) = ((sample.readme, [OutClose None; OutClose None]), []) /\
  snd (value (run (fst (value (Read sample.readme 4))) [OpClose; OpClose]))
  = [OutClose None; OutClose None].
Proof.
  split.
  - exact (proj1 (Close_forwards_to_stream sample.readme) eq_refl 2).
  - assert (Hr : gf_r (fst (value (Read sample.readme 4)))
                 = Some (list_byte_of_string "ADME")) by reflexivity.
    rewrite (proj2 (proj2 (Close_forwards_to_stream (fst (value (Read sample.readme 4))))
                      (list_byte_of_string "ADME") Hr)).
    reflexivity.
Defined.

(** ** Failures *)

Section Failures.
Context {R : Type} `{ReadCloser R}.
Implicit Types (g : gitFS R) (f : gitFile R).

Lemma Open_failure g name err :
  snd (value (Open g name)) = Some err ->
  fst (value (Open g name)) = None /\ exists cause, err = toFSError "open" name cause.
Proof.
  unfold Open. destruct (negb (fs.ValidPath name)).
  { cbn. intros [= <-]. eauto. }
  tr.
  destruct (value (if name =? "." then _ else _)) as [e | e'].
  - destruct (newGitFile_cases (tree g) e) as [[_ ->] | [err' [_ ->]]]; cbn.
    + discriminate.
    + intros [= <-]. eauto.
  - cbn. intros [= <-]. eauto.
Qed.

Lemma ReadDir_failure g name err :
  snd (value (ReadDir g name)) = Some err ->
  fst (value (ReadDir g name)) = [] /\ exists cause, err = toFSError "readdir" name cause.
Proof.
  pose proof (fun t : object.Tree R =>
                fill_all_or_nothing name t (object.Entries t) [] err) as Hfill.
  unfold ReadDir. destruct (negb (fs.ValidPath name)).
  { cbn. intros [= <-]. eauto. }
  destruct (name =? ".").
  { cbn. apply Hfill. }
  tr. destruct (value (object.Tree_ (tree g) name)) as [t | e'].
  - cbn. apply Hfill.
  - tr. destruct (value (object.FindEntry (tree g) name)); cbn.
    + discriminate.
    + intros [= <-]. eauto.
Qed.

Lemma Sub_failure g name err :
  snd (value (Sub g name)) = Some err ->
  fst (value (Sub g name)) = None /\ exists cause, err = toFSError "sub" name cause.
Proof.
  unfold Sub. tr. destruct (value (object.Tree_ (tree g) name)) as [t | e']; cbn.
  - discriminate.
  - intros [= <-]. eauto.
Qed.

(** A failing [load]: the handle is not a directory, has no file yet,
    stays as it is, and the error is the one [TreeEntryFile] returned. *)
Lemma load_failure f err :
  snd (value (load f)) = Some err ->
  IsDir f = false /\ gf_file f = None /\
  value (load f) = (f, Some err) /\
  value (object.TreeEntryFile (gf_tree f) (gf_entry f)) = Err err.
Proof.
  unfold load, IsDir. destruct (gf_file f) as [file|] eqn:Hf; [discriminate|].
  destruct (fs.IsDir (gf_mode f)); [discriminate|].
  tr. destruct (value (object.TreeEntryFile _ _)) as [file | e']; cbn.
  - discriminate.
  - intros [= <-]. rewrite <- Hf, set_file_same. auto.
Qed.

Lemma toFSError_maps (op path : string) (c : error) :
  toFSError op path c
  = PathError op path (if not_found_sentinel c then ErrNotExist else c).
Proof. destruct c; reflexivity. Qed.

(** Why [Open] fails: the path is invalid, or resolving it fails, or the
    entry found has a malformed mode; the cause is the error of that
    step. *)
Lemma Open_failure_cause g name err :
  snd (value (Open g name)) = Some err ->
  fst (value (Open g name)) = None /\
  exists cause, err = toFSError "open" name cause /\
    ((fs.ValidPath name = false /\ cause = ErrInvalid) \/
     (fs.ValidPath name = true /\ value (resolve g name) = Err cause) \/
     (fs.ValidPath name = true /\
      exists e, value (resolve g name) = Ok e /\
                snd (filemode.ToOSFileMode (object.Mode e)) = Some cause)).
Proof.
  unfold Open. destruct (fs.ValidPath name) eqn:Hv; cbn [negb].
  - tr.
    change (if name =? "."
            then ret (Ok {| object.Name := "."; object.Mode := filemode.Dir;
                            object.Hash := object.TreeHash (tree g) |})
            else object.FindEntry (tree g) name) with (resolve g name).
    destruct (value (resolve g name)) as [e | c] eqn:Hr.
    + destruct (newGitFile_cases (tree g) e) as [[_ ->] | [err' [Hm ->]]]; cbn.
      * discriminate.
      * intros [= <-]. split; [reflexivity|]. exists err'. split; [reflexivity|].
        right. right. split; [reflexivity|]. exists e. auto.
    + cbn. intros [= <-]. split; [reflexivity|]. exists c. auto.
  - cbn. intros [= <-]. split; [reflexivity|]. exists ErrInvalid. auto.
Qed.

(** Why the loop of [ReadDir] fails: an entry with a malformed mode, the
    first in the tree's order; the cause is that entry's error. *)
Lemma fill_failure_cause name (t : object.Tree R) todo : forall entries err,
  snd (fill name t todo entries) = Some err ->
  fst (fill name t todo entries) = [] /\
  exists cause good bad rest,
    err = toFSError "readdir" name cause /\
    todo = (good ++ bad :: rest)%list /\
    (forall e, In e good -> snd (filemode.ToOSFileMode (object.Mode e)) = None) /\
    snd (filemode.ToOSFileMode (object.Mode bad)) = Some cause.
Proof.
  induction todo as [|e todo IH]; intros entries err; cbn [fill].
  - discriminate.
  - destruct (newGitFile_cases t e) as [[Hm ->] | [err' [Hm ->]]].
    + intros Hf. destruct (IH _ _ Hf) as [Hnil (cause & good & bad & rest & He & Ht & Hg & Hb)].
      split; [exact Hnil|]. exists cause, (e :: good), bad, rest.
      split; [exact He|]. split; [rewrite Ht; reflexivity|]. split; [|exact Hb].
      intros e' [<- | Hin]; [exact Hm | exact (Hg e' Hin)].
    + cbn. intros [= <-]. split; [reflexivity|]. exists err', [], e, todo.
      split; [reflexivity|]. split; [reflexivity|]. split; [intros ? []|exact Hm].
Qed.

(** Why [ReadDir] fails: the path is invalid, or neither [Tree.Tree] nor
    the walk finds anything (the cause is the error of [Tree.Tree]), or
    the listed tree has an entry with a malformed mode. *)
Lemma ReadDir_failure_cause g name err :
  snd (value (ReadDir g name)) = Some err ->
  fst (value (ReadDir g name)) = [] /\
  exists cause, err = toFSError "readdir" name cause /\
    ((fs.ValidPath name = false /\ cause = ErrInvalid) \/
     (fs.ValidPath name = true /\ name <> "." /\
      value (object.Tree_ (tree g) name) = Err cause /\
      exists c, value (object.FindEntry (tree g) name) = Err c) \/
     (fs.ValidPath name = true /\
      exists t good bad rest,
        lists_tree g name t /\
        object.Entries t = (good ++ bad :: rest)%list /\
        (forall e, In e good -> snd (filemode.ToOSFileMode (object.Mode e)) = None) /\
        snd (filemode.ToOSFileMode (object.Mode bad)) = Some cause)).
Proof.
  assert (Hfill : forall t : object.Tree R, lists_tree g name t -> fs.ValidPath name = true ->
            snd (fill name t (object.Entries t) []) = Some err ->
            fst (fill name t (object.Entries t) []) = [] /\
            exists cause, err = toFSError "readdir" name cause /\
              ((fs.ValidPath name = false /\ cause = ErrInvalid) \/
               (fs.ValidPath name = true /\ name <> "." /\
                value (object.Tree_ (tree g) name) = Err cause /\
                exists c, value (object.FindEntry (tree g) name) = Err c) \/
               (fs.ValidPath name = true /\
                exists t good bad rest,
                  lists_tree g name t /\
                  object.Entries t = (good ++ bad :: rest)%list /\
                  (forall e, In e good ->
                             snd (filemode.ToOSFileMode (object.Mode e)) = None) /\
                  snd (filemode.ToOSFileMode (object.Mode bad)) = Some cause))).
  { intros t Hl Hv Hf.
    destruct (fill_failure_cause name t _ _ _ Hf)
      as [Hnil (cause & good & bad & rest & He & Ht & Hg & Hb)].
    split; [exact Hnil|]. exists cause. split; [exact He|].
    right. right. split; [exact Hv|]. exists t, good, bad, rest. auto. }
  unfold ReadDir. destruct (fs.ValidPath name) eqn:Hv; cbn [negb].
  - destruct (String.eqb_spec name ".") as [E | Hne].
    + cbn [value ret fst]. apply (Hfill (tree g)); [left; auto | reflexivity].
    + tr. destruct (value (object.Tree_ (tree g) name)) as [t | c] eqn:Ht.
      * cbn [value ret fst]. apply (Hfill t); [right; auto | reflexivity].
      * tr. destruct (value (object.FindEntry (tree g) name)) as [e | c2] eqn:Hf; cbn.
        -- discriminate.
        -- intros [= <-]. split; [reflexivity|]. exists c. split; [reflexivity|].
           right. left. split; [reflexivity|]. split; [exact Hne|]. split; [reflexivity|].
           exists c2. reflexivity.
  - cbn. intros [= <-]. split; [reflexivity|]. exists ErrInvalid. auto.
Qed.

(** Why [Sub] fails: [Tree.Tree] does; the cause is its error. *)
Lemma Sub_failure_cause g name err :
  snd (value (Sub g name)) = Some err ->
  fst (value (Sub g name)) = None /\
  exists cause, err = toFSError "sub" name cause /\
                value (object.Tree_ (tree g) name) = Err cause.
Proof.
  unfold Sub. tr. destruct (value (object.Tree_ (tree g) name)) as [t | c]; cbn.
  - discriminate.
  - intros [= <-]. split; [reflexivity|]. exists c. auto.
Qed.

(** Each of these failures does occur, with exactly that result. *)
Lemma Open_fails_with g name :
  (fs.ValidPath name = false ->
   value (Open g name) = (None, Some (toFSError "open" name ErrInvalid))) /\
  (fs.ValidPath name = true -> forall c,
   value (resolve g name) = Err c ->
   value (Open g name) = (None, Some (toFSError "open" name c))) /\
  (fs.ValidPath name = true -> forall e c,
   value (resolve g name) = Ok e ->
   snd (filemode.ToOSFileMode (object.Mode e)) = Some c ->
   value (Open g name) = (None, Some (toFSError "open" name c))).
Proof.
  assert (Hres : fs.ValidPath name = true ->
            value (Open g name)
            = value (match value (resolve g name) with
                     | Err err => ret (None, Some (toFSError "open" name err))
                     | Ok entry =>
                         let (file, err) := newGitFile (tree g) entry in
                         match err with
                         | Some err => ret (None, Some (toFSError "open" name err))
                         | None => ret (file, None)
                         end
                     end)).
  { intros Hv. unfold Open. rewrite Hv. reflexivity. }
  split; [|split].
  - intros Hv. unfold Open. rewrite Hv. reflexivity.
  - intros Hv c Hr. rewrite (Hres Hv), Hr. reflexivity.
  - intros Hv e c Hr Hm. rewrite (Hres Hv), Hr.
    destruct (newGitFile_cases (tree g) e) as [[Hm' _] | [err' [Hm' ->]]];
      [congruence|].
    rewrite Hm in Hm'. injection Hm' as <-. reflexivity.
Qed.

Lemma fill_fails_with name (t : object.Tree R) good bad rest cause : forall entries,
  (forall e, In e good -> snd (filemode.ToOSFileMode (object.Mode e)) = None) ->
  snd (filemode.ToOSFileMode (object.Mode bad)) = Some cause ->
  fill name t (good ++ bad :: rest) entries
  = ([], Some (toFSError "readdir" name cause)).
Proof.
  induction good as [|e good IH]; intros entries Hgood Hbad; cbn [app fill].
  - destruct (newGitFile_cases t bad) as [[Hm _] | [err [Hm ->]]]; [congruence|].
    rewrite Hbad in Hm. injection Hm as <-. reflexivity.
  - destruct (newGitFile_cases t e) as [[_ ->] | [err [Hm _]]].
    + apply IH; [intros; apply Hgood; right; assumption | exact Hbad].
    + rewrite (Hgood e (or_introl eq_refl)) in Hm. discriminate.
Qed.

Lemma ReadDir_fails_with g name :
  (fs.ValidPath name = false ->
   value (ReadDir g name) = ([], Some (toFSError "readdir" name ErrInvalid))) /\
  (fs.ValidPath name = true -> name <> "." -> forall c c',
   value (object.Tree_ (tree g) name) = Err c ->
   value (object.FindEntry (tree g) name) = Err c' ->
   value (ReadDir g name) = ([], Some (toFSError "readdir" name c))) /\
  (fs.ValidPath name = true -> forall (t : object.Tree R) good bad rest c,
   lists_tree g name t ->
   object.Entries t = (good ++ bad :: rest)%list ->
   (forall e, In e good -> snd (filemode.ToOSFileMode (object.Mode e)) = None) ->
   snd (filemode.ToOSFileMode (object.Mode bad)) = Some c ->
   value (ReadDir g name) = ([], Some (toFSError "readdir" name c))).
Proof.
  split; [|split].
  - intros Hv. unfold ReadDir. rewrite Hv. reflexivity.
  - intros Hv Hne c c' Ht Hf. unfold ReadDir. rewrite Hv. cbn [negb].
    destruct (String.eqb_spec name "."); [contradiction|].
    tr. rewrite Ht. tr. rewrite Hf. reflexivity.
  - intros Hv t good bad rest c Hl He Hgood Hbad.
    assert (Hrd : value (ReadDir g name) = fill name t (object.Entries t) []).
    { destruct Hl as [[-> ->] | [Hne Ht]]; [reflexivity|].
      unfold ReadDir. rewrite Hv. cbn [negb].
      destruct (String.eqb_spec name "."); [contradiction|].
      tr. rewrite Ht. reflexivity. }
    rewrite Hrd, He. apply fill_fails_with; assumption.
Qed.

Lemma Sub_fails_with g name c :
  value (object.Tree_ (tree g) name) = Err c ->
  value (Sub g name) = (None, Some (toFSError "sub" name c)).
Proof. intros Ht. unfold Sub. tr. rewrite Ht. reflexivity. Qed.

(** C5, as the code has it. A failing [Open], [ReadDir] or [Sub] returns
    nothing but a [PathError] with its operation name ("open", "readdir",
    "sub"), the path it was given and the cause of the failure, in which
    [toFSError] replaces the three not-found sentinels by [ErrNotExist]
    and keeps every other error as it is.  The cause is [ErrInvalid] for
    an invalid path ([Open], [ReadDir]); otherwise the error of resolving
    the path ([Open]) or of [Tree.Tree] ([Sub], and [ReadDir] when the
    walk finds nothing either); otherwise the malformed-mode error of the
    entry found ([Open]) or of the first such entry of the listed tree
    ([ReadDir]).  A failing load on a handle makes [Stat] return no info,
    and [Read] no byte, with the very error the store returned, not
    wrapped and without operation or path, and leaves the handle as it
    was.  The theorem states the view part in both directions: a failure
    has one of these causes, and each of these conditions gives exactly
    that failure. *)
Theorem view_failures_tagged_handle_failures_bare g name f (n : nat) :
  (forall op path c,
     toFSError op path c
     = PathError op path (if not_found_sentinel c then ErrNotExist else c)) /\
  (forall err, snd (value (Open g name)) = Some err ->
     fst (value (Open g name)) = None /\
     exists cause, err = toFSError "open" name cause /\
       ((fs.ValidPath name = false /\ cause = ErrInvalid) \/
        (fs.ValidPath name = true /\ value (resolve g name) = Err cause) \/
        (fs.ValidPath name = true /\
         exists e, value (resolve g name) = Ok e /\
                   snd (filemode.ToOSFileMode (object.Mode e)) = Some cause))) /\
  (forall err, snd (value (ReadDir g name)) = Some err ->
     fst (value (ReadDir g name)) = [] /\
     exists cause, err = toFSError "readdir" name cause /\
       ((fs.ValidPath name = false /\ cause = ErrInvalid) \/
        (fs.ValidPath name = true /\ name <> "." /\
         value (object.Tree_ (tree g) name) = Err cause /\
         exists c, value (object.FindEntry (tree g) name) = Err c) \/
        (fs.ValidPath name = true /\
         exists t good bad rest,
           lists_tree g name t /\
           object.Entries t = (good ++ bad :: rest)%list /\
           (forall e, In e good -> snd (filemode.ToOSFileMode (object.Mode e)) = None) /\
           snd (filemode.ToOSFileMode (object.Mode bad)) = Some cause))) /\
  (forall err, snd (value (Sub g name)) = Some err ->
     fst (value (Sub g name)) = None /\
     exists cause, err = toFSError "sub" name cause /\
                   value (object.Tree_ (tree g) name) = Err cause) /\
  ((fs.ValidPath name = false ->
    value (Open g name) = (None, Some (toFSError "open" name ErrInvalid))) /\
   (fs.ValidPath name = true -> forall c,
    value (resolve g name) = Err c ->
    value (Open g name) = (None, Some (toFSError "open" name c))) /\
   (fs.ValidPath name = true -> forall e c,
    value (resolve g name) = Ok e ->
    snd (filemode.ToOSFileMode (object.Mode e)) = Some c ->
    value (Open g name) = (None, Some (toFSError "open" name c)))) /\
  ((fs.ValidPath name = false ->
    value (ReadDir g name) = ([], Some (toFSError "readdir" name ErrInvalid))) /\
   (fs.ValidPath name = true -> name <> "." -> forall c c',
    value (object.Tree_ (tree g) name) = Err c ->
    value (object.FindEntry (tree g) name) = Err c' ->
    value (ReadDir g name) = ([], Some (toFSError "readdir" name c))) /\
   (fs.ValidPath name = true -> forall (t : object.Tree R) good bad rest c,
    lists_tree g name t ->
    object.Entries t = (good ++ bad :: rest)%list ->
    (forall e, In e good -> snd (filemode.ToOSFileMode (object.Mode e)) = None) ->
    snd (filemode.ToOSFileMode (object.Mode bad)) = Some c ->
    value (ReadDir g name) = ([], Some (toFSError "readdir" name c)))) /\
  (forall c, value (object.Tree_ (tree g) name) = Err c ->
     value (Sub g name) = (None, Some (toFSError "sub" name c))) /\
  (forall err, snd (value (load f)) = Some err ->
     value (object.TreeEntryFile (gf_tree f) (gf_entry f)) = Err err /\
     value (Stat f) = (f, (None, Some err)) /\
     value (Read f n) = (f, ([], Some err))).
Proof.
  split; [exact toFSError_maps|].
  split; [exact (Open_failure_cause g name)|].
  split; [exact (ReadDir_failure_cause g name)|].
  split; [exact (Sub_failure_cause g name)|].
  split; [exact (Open_fails_with g name)|].
  split; [exact (ReadDir_fails_with g name)|].
  split; [exact (Sub_fails_with g name)|].
  intros err Hl. destruct (load_failure f err Hl) as (Hd & Hf & Hv & Ht).
  split; [exact Ht|]. split.
  - unfold Stat. tr. rewrite Hv. reflexivity.
  - unfold Read. unfold IsDir in Hd. rewrite Hd. tr. rewrite Hv. reflexivity.
Qed.

End Failures.

(** C5 fails on a handle: [Stat] and [Read] on the file whose blob the
    store has lost return the store's own error, which is no
    [PathError]. *)
Lemma Stat_failure_is_not_tagged :
  fst (value (Open sample.lost_view "lost")) = Some sample.lost /\
  value (Stat sample.lost) = (sample.lost, (None, Some ErrObjectNotFound)) /\
  value (Read sample.lost 8) = (sample.lost, ([], Some ErrObjectNotFound)) /\
  is_PathError ErrObjectNotFound = false.
Proof. repeat split. Qed.

(** On the test snapshot: a missing file, and the lost blob. *)
Lemma view_failures_tagged_handle_failures_bare_witness :
  (exists cause,
      PathError "open" "nothing" ErrNotExist = toFSError "open" "nothing" cause /\
      value (resolve sample.lost_view "nothing") = Err cause) /\
  value (Stat sample.lost) = (sample.lost, (None, Some ErrObjectNotFound)).
Proof.
  destruct (view_failures_tagged_handle_failures_bare sample.lost_view "nothing" sample.lost 8)
    as [_ [HO [_ [_ [_ [_ [_ HL]]]]]]].
  split.
  - destruct (HO (PathError "open" "nothing" ErrNotExist) eq_refl)
      as [_ [cause [He [[Hv _] | [[_ Hr] | [_ [e [Hr _]]]]]]]].
    + discriminate Hv.
    + exists cause. split; [exact He | exact Hr].
    + discriminate Hr.
  - exact (proj1 (proj2 (HL ErrObjectNotFound eq_refl))).
Defined.

(** ** Joined paths *)

Lemma Split_join (d p : string) :
  fs.Split (d ++ "/" ++ p) = (fst (fs.Split d), (snd (fs.Split d) ++ fs.elems p)%list).
Proof.
  induction d as [|c d IH].
  - cbn. unfold fs.elems. destruct (fs.Split p); reflexivity.
  - cbn [append fs.Split]. change (d ++ String "/" p) with (d ++ "/" ++ p).
    rewrite IH. destruct (fs.Split d) as [h tl]. cbn [fst snd].
    destruct (Ascii.eqb c "/"); reflexivity.
Qed.

Lemma elems_join (d p : string) :
  fs.elems (d ++ "/" ++ p) = (fs.elems d ++ fs.elems p)%list.
Proof.
  unfold fs.elems at 1 2. rewrite Split_join.
  destruct (fs.Split d); reflexivity.
Qed.

Lemma utf8_Valid_app (a b : list N) :
  fs.utf8_Valid a = true -> fs.utf8_Valid b = true -> fs.utf8_Valid (a ++ b) = true.
Proof.
  intros Ha Hb. remember (List.length a) as n eqn:Hn.
  assert (Hle : List.length a <= n) by lia. clear Hn.
  revert a Ha Hle. induction n as [|n IH]; intros a Ha Hle.
  - destruct a; [exact Hb | cbn in Hle; lia].
  - destruct a as [|b0 p1]; [exact Hb|].
    cbn [app]. cbn [fs.utf8_Valid] in Ha |- *.
    destruct (b0 <? 128)%N.
    { apply IH; [exact Ha | cbn in Hle; lia]. }
    destruct (fs.within 194 223 b0).
    { destruct p1 as [|c1 p2]; [discriminate|]. cbn [app].
      apply andb_true_iff in Ha. destruct Ha as [-> Ha]. cbn [andb].
      apply IH; [exact Ha | cbn in Hle; lia]. }
    destruct (fs.within 224 239 b0).
    { destruct p1 as [|c1 [|c2 p3]]; try discriminate. cbn [app].
      apply andb_true_iff in Ha. destruct Ha as [-> Ha]. cbn [andb].
      apply IH; [exact Ha | cbn in Hle; lia]. }
    destruct (fs.within 240 244 b0); [|discriminate].
    destruct p1 as [|c1 [|c2 [|c3 p4]]]; try discriminate. cbn [app].
    apply andb_true_iff in Ha. destruct Ha as [-> Ha]. cbn [andb].
    apply IH; [exact Ha | cbn in Hle; lia].
Qed.

Lemma list_ascii_of_string_app (a b : string) :
  list_ascii_of_string (a ++ b)
  = (list_ascii_of_string a ++ list_ascii_of_string b)%list.
Proof. induction a as [|c a IH]; cbn; [reflexivity | rewrite IH; reflexivity]. Qed.

Lemma ValidString_join (d p : string) :
  fs.ValidString d = true -> fs.ValidString p = true ->
  fs.ValidString (d ++ "/" ++ p) = true.
Proof.
  unfold fs.ValidString. intros Hd Hp.
  rewrite !list_ascii_of_string_app, !map_app.
  apply utf8_Valid_app; [exact Hd|]. apply (utf8_Valid_app [47%N]); [reflexivity | exact Hp].
Qed.

Lemma ValidPath_ValidString (name : string) :
  fs.ValidPath name = true -> fs.ValidString name = true.
Proof.
  unfold fs.ValidPath. destruct (fs.ValidString name); [reflexivity | discriminate].
Qed.

Lemma join_not_dot (d p : string) : (d ++ "/" ++ p =? ".") = false.
Proof.
  apply String.eqb_neq. destruct d as [|c [|c' d]]; cbn; discriminate.
Qed.

(** Two valid paths other than "." join to a valid path. *)
Lemma ValidPath_join (d p : string) :
  fs.ValidPath d = true -> d <> "." -> fs.ValidPath p = true -> p <> "." ->
  fs.ValidPath (d ++ "/" ++ p) = true.
Proof.
  intros Hd Hdn Hp Hpn. unfold fs.ValidPath.
  rewrite (ValidString_join d p (ValidPath_ValidString d Hd) (ValidPath_ValidString p Hp)).
  cbn [negb]. rewrite join_not_dot, elems_join, forallb_app.
  rewrite (ValidPath_elems d Hd Hdn), (ValidPath_elems p Hp Hpn). reflexivity.
Qed.

(** ** Scoped views *)

Section Scoping.
Context {R : Type} `{ReadCloser R}.
Implicit Types (g : gitFS R) (f : gitFile R) (t : object.Tree R).

Lemma Decode_store (st : object.Storer R) h o t :
  object.Decode st h o = Ok t -> object.s t = st.
Proof. destruct o; cbn; [intros [= <-]; reflexivity | discriminate]. Qed.

(** A tree entered with [dir] is read from the same store. *)
Lemma dir_store t n t1 :
  value (object.dir t n) = Ok t1 -> object.s t1 = object.s t.
Proof.
  unfold object.dir. destruct (object.entry t n) as [e|]; [|discriminate].
  tr. destruct (value (object.EncodedObject _ _ _)) as [o|]; [|discriminate].
  apply Decode_store.
Qed.

Lemma dir_as_GetTree t n e :
  object.entry t n = Ok e ->
  value (object.dir t n) = value (object.GetTree (object.s t) (object.Hash e)).
Proof.
  intros He. unfold object.dir, object.GetTree. rewrite He. tr. reflexivity.
Qed.

(** The last step of [Tree.Tree] fetches the tree [dir] would enter. *)
Lemma walk_then_GetTree rest : forall t first e t',
  value (object.walk t first rest) = Ok e ->
  value (object.GetTree (object.s t) (object.Hash e)) = Ok t' ->
  value (descend t first rest) = Ok t'.
Proof.
  induction rest as [|next rest IH]; intros t first e t' Hw Hg.
  - cbn in Hw. cbn [descend]. tr. rewrite (dir_as_GetTree t first e Hw), Hg. reflexivity.
  - cbn [object.walk] in Hw. cbn [descend]. revert Hw. tr.
    destruct (value (object.dir t first)) as [t1|] eqn:Hd; [|discriminate].
    intros Hw. apply (IH t1 next e t' Hw).
    rewrite (dir_store t first t1 Hd). exact Hg.
Qed.

Lemma Tree_descend t d t' :
  value (object.Tree_ t d) = Ok t' ->
  value (descend t (fst (fs.Split d)) (snd (fs.Split d))) = Ok t' /\
  object.s t' = object.s t.
Proof.
  unfold object.Tree_, object.FindEntry. destruct (fs.Split d) as [first rest].
  cbn [fst snd]. tr.
  destruct (value (object.walk t first rest)) as [e|] eqn:Hw; [|discriminate].
  tr. destruct (value (object.GetTree _ _)) as [t1 | err] eqn:Hg.
  - intros [= <-]. split; [exact (walk_then_GetTree rest t first e t1 Hw Hg)|].
    revert Hg. unfold object.GetTree. tr.
    destruct (value (object.EncodedObject _ _ _)) as [o|]; [|discriminate].
    apply Decode_store.
  - destruct err; discriminate.
Qed.

Lemma walk_app rest : forall t first q qs,
  value (object.walk t first (rest ++ q :: qs))
  = match value (descend t first rest) with
    | Ok t' => value (object.walk t' q qs)
    | Err err => Err err
    end.
Proof.
  induction rest as [|next rest IH]; intros t first q qs; cbn [app object.walk descend]; tr.
  - destruct (value (object.dir t first)); reflexivity.
  - destruct (value (object.dir t first)) as [t1|]; [apply IH | reflexivity].
Qed.

(** Below a directory [d] that [Tree.Tree] resolves, the walk along
    [d/p] is the walk along [p] in the subtree. *)
Lemma FindEntry_join t d p t' :
  value (object.Tree_ t d) = Ok t' ->
  value (object.FindEntry t (d ++ "/" ++ p)) = value (object.FindEntry t' p).
Proof.
  intros Ht. destruct (Tree_descend t d t' Ht) as [Hd _].
  unfold object.FindEntry. rewrite Split_join. unfold fs.elems.
  destruct (fs.Split p) as [q qs]. rewrite walk_app, Hd. reflexivity.
Qed.

Lemma TreeEntryFile_store t1 t2 e :
  object.s t1 = object.s t2 ->
  object.TreeEntryFile t1 e = object.TreeEntryFile t2 e.
Proof. intros Hs. unfold object.TreeEntryFile. rewrite Hs. reflexivity. Qed.

(** A handle does with its tree nothing but ask its store: under another
    tree of the same store every call gives the same results. *)
Lemma load_with_tree t f :
  object.s t = object.s (gf_tree f) ->
  value (load (with_tree t f))
  = (with_tree t (fst (value (load f))), snd (value (load f))).
Proof.
  intros Hs. unfold load. cbn [with_tree gf_file gf_mode gf_tree gf_entry].
  rewrite (TreeEntryFile_store t (gf_tree f) _ Hs).
  destruct (gf_file f) as [file|]; [reflexivity|].
  destruct (fs.IsDir (gf_mode f)); [reflexivity|].
  tr. destruct (value (object.TreeEntryFile _ _)); reflexivity.
Qed.

Lemma Read_with_tree t f n :
  object.s t = object.s (gf_tree f) ->
  value (Read (with_tree t f) n)
  = (with_tree t (fst (value (Read f n))), snd (value (Read f n))).
Proof.
  intros Hs. unfold Read. cbn [with_tree gf_mode].
  destruct (fs.IsDir (gf_mode f)); [reflexivity|].
  change {| gf_tree := t; gf_entry := gf_entry f; gf_mode := gf_mode f;
            gf_file := gf_file f; gf_r := gf_r f |} with (with_tree t f).
  tr. rewrite (load_with_tree t f Hs).
  destruct (value (load f)) as [f1 [e1|]]; cbn [fst snd]; [reflexivity|].
  tr. cbn [with_tree gf_r gf_file].
  destruct (gf_r f1) as [r|] eqn:Hr.
  - cbn [value ret fst snd gf_r with_tree]. rewrite Hr. tr.
    destruct (rc_Read r n). reflexivity.
  - destruct (gf_file f1) as [file|].
    + tr. destruct (value (object.Reader file)) as [r|err];
        cbn [value ret fst snd gf_r with_tree set_r]; rewrite ?Hr; tr.
      * destruct (rc_Read r n). reflexivity.
      * reflexivity.
    + cbn [value ret fst snd gf_r with_tree set_r]. reflexivity.
Qed.

Lemma step_with_tree t f o :
  object.s t = object.s (gf_tree f) ->
  value (step (with_tree t f) o)
  = (with_tree t (fst (value (step f o))), snd (value (step f o))).
Proof.
  intros Hs. destruct o; unfold step; tr.
  - unfold Stat. tr. rewrite (load_with_tree t f Hs).
    destruct (value (load f)) as [f1 [e1|]]; reflexivity.
  - rewrite (Read_with_tree t f n Hs). reflexivity.
  - unfold Close. cbn [with_tree gf_r].
    destruct (gf_r f) as [r|]; [|reflexivity].
    tr. destruct (rc_Close r). reflexivity.
Qed.

Lemma run_with_tree t ops : forall f,
  object.s t = object.s (gf_tree f) ->
  value (run (with_tree t f) ops)
  = (with_tree t (fst (value (run f ops))), snd (value (run f ops))).
Proof.
  assert (Hkeep : forall f o, gf_tree (fst (value (step f o))) = gf_tree f).
  { intros f o. pose proof (step_with_tree (gf_tree f) f o eq_refl) as Hs.
    assert (Hid : forall x : gitFile R, with_tree (gf_tree x) x = x) by (intros []; reflexivity).
    rewrite Hid in Hs. apply (f_equal (fun x => gf_tree (fst x))) in Hs. cbn in Hs.
    exact Hs. }
  induction ops as [|o ops IH]; intros f Hs; cbn [run]; [reflexivity|].
  tr. rewrite (step_with_tree t f o Hs). cbn [fst snd].
  rewrite IH by (rewrite Hkeep; exact Hs). reflexivity.
Qed.

Lemma Open_success g name f :
  value (Open g name) = (Some f, None) -> exists e, f = handle_of (tree g) e.
Proof.
  unfold Open. destruct (negb (fs.ValidPath name)); [discriminate|].
  tr. destruct (value (if name =? "." then _ else _)) as [e | e']; [|discriminate].
  destruct (newGitFile_cases (tree g) e) as [[_ ->] | [err' [_ ->]]]; cbn.
  - intros [= <-]. eauto.
  - discriminate.
Qed.

Lemma Sub_success g d g' :
  value (Sub g d) = (Some g', None) ->
  value (object.Tree_ (tree g) d) = Ok (tree g').
Proof.
  unfold Sub. tr. destruct (value (object.Tree_ (tree g) d)) as [t|]; cbn.
  - intros [= <-]. reflexivity.
  - discriminate.
Qed.

(** C6. For a directory [d] of a view and a valid path [p], opening [p]
    in the view scoped at [d] and opening the joined path in the original
    view both succeed or both fail: the two handles then give the same
    results to every sequence of [Stat], [Read] and [Close] calls, the
    same bytes among them; the two failures have the same cause. *)
Theorem scoped_read_agrees g d p g' :
  fs.ValidPath d = true -> d <> "." -> fs.ValidPath p = true ->
  is_directory g d ->
  value (Sub g d) = (Some g', None) ->
  match value (Open g' p), value (Open g (Join d p)) with
  | (Some f1, None), (Some f2, None) =>
      forall ops, snd (value (run f1 ops)) = snd (value (run f2 ops))
  | (None, Some e1), (None, Some e2) =>
      exists cause, e1 = toFSError "open" p cause /\
                    e2 = toFSError "open" (Join d p) cause
  | _, _ => False
  end.
Proof.
  intros Hd Hdn Hp [fd [Hfd Hdir]] Hsub.
  pose proof (Sub_success g d g' Hsub) as Ht.
  destruct (Tree_descend _ _ _ Ht) as [_ Hstore].
  destruct (String.eqb_spec p ".") as [-> | Hpn].
  - change (Join d ".") with d. rewrite Hfd.
    destruct (Open_success g d fd Hfd) as [e ->].
    change (value (Open g' ".")) with
      (Some (handle_of (tree g')
               {| object.Name := "."; object.Mode := filemode.Dir;
                  object.Hash := object.TreeHash (tree g') |}), @None error).
    intros ops. rewrite !run_dir by (reflexivity || exact Hdir). reflexivity.
  - assert (HJ : Join d p = d ++ "/" ++ p).
    { unfold Join. destruct (String.eqb_spec p "."); [contradiction|].
      destruct (String.eqb_spec d "."); [contradiction | reflexivity]. }
    rewrite HJ. unfold Open.
    rewrite Hp, (ValidPath_join d p Hd Hdn Hp Hpn), join_not_dot. cbn [negb].
    destruct (String.eqb_spec p "."); [contradiction|].
    tr. rewrite (FindEntry_join (tree g) d p (tree g') Ht).
    destruct (value (object.FindEntry (tree g') p)) as [e | err].
    + destruct (newGitFile_cases (tree g') e) as [[Hm ->] | [err [Hm ->]]];
        destruct (newGitFile_cases (tree g) e) as [[Hm' ->] | [err' [Hm' ->]]];
        cbn [value ret fst snd].
      * intros ops.
        change (handle_of (tree g') e) with (with_tree (tree g') (handle_of (tree g) e)).
        rewrite (run_with_tree (tree g') ops (handle_of (tree g) e) Hstore). reflexivity.
      * congruence.
      * congruence.
      * exists err. rewrite Hm in Hm'. injection Hm' as <-. split; reflexivity.
    + cbn [value ret fst snd]. exists err. split; reflexivity.
Qed.

End Scoping.

(** The repository's scenario: scoped at dir1, dir11/dir11.txt reads as
    dir1/dir11/dir11.txt does from the root. *)
Lemma scoped_read_agrees_witness :
  snd (value (run (handle_of (sample.tree_at sample.mem 11) (sample.file "dir11.txt" 2))
                  [OpStat; OpRead 3; OpRead 3; OpRead 3; OpClose]))
  = snd (value (run (handle_of (sample.root sample.mem) (sample.file "dir11.txt" 2))
                    [OpStat; OpRead 3; OpRead 3; OpRead 3; OpClose])).
Proof.
  exact (scoped_read_agrees sample.view "dir1" "dir11/dir11.txt"
           (New (sample.tree_at sample.mem 11))
           eq_refl
           (fun E => eq_ind "dir1" (fun s => if s =? "." then False else True) I "." E)
           eq_refl
           (ex_intro _ sample.dir1 (conj eq_refl eq_refl))
           eq_refl
           [OpStat; OpRead 3; OpRead 3; OpRead 3; OpClose]).
Defined.

(* ================================================================= *)
(** * Further properties of the views *)

Lemma ToOSFileMode_error (m : filemode.FileMode) :
  snd (filemode.ToOSFileMode m) = None \/
  snd (filemode.ToOSFileMode m) = Some (ErrMalformedMode m).
Proof.
  unfold filemode.ToOSFileMode.
  repeat match goal with
         | |- context [if ?b then _ else _] => destruct b; [left; reflexivity|]
         end.
  right. reflexivity.
Qed.

Section Rejections.
Context {R : Type} `{ReadCloser R}.
Implicit Types (g : gitFS R) (t : object.Tree R).

(** X1. A path with an empty element (a leading, trailing or doubled
    slash), an element "." or an element "..", other than the path "."
    itself, is refused by [Open] and by [ReadDir] with [ErrInvalid] under
    their operation name and the path, with no result and before any
    access to the store. *)
Theorem invalid_path_is_rejected g name e :
  In e (fs.elems name) -> e = "" \/ e = "." \/ e = ".." -> name <> "." ->
  Open g name = ((None, Some (PathError "open" name ErrInvalid)), []) /\
  ReadDir g name = (([], Some (PathError "readdir" name ErrInvalid)), []).
Proof.
  intros Hin Hbad Hne. pose proof (bad_elem_invalid name e Hin Hbad Hne) as Hv.
  split; [apply Open_InvalidPath | apply ReadDir_InvalidPath]; exact Hv.
Qed.

Lemma toFSError_hides (op name : string) (c : error) :
  exists c', toFSError op name c = PathError op name c' /\ not_found_sentinel c' = false.
Proof. destruct c; eexists; split; reflexivity. Qed.

(** X2. Whatever makes [Open], [ReadDir] or [Sub] fail, the error they
    return is a [PathError] on the path they were given whose cause is
    never one of go-git's not-found sentinels ([ErrDirectoryNotFound],
    [ErrEntryNotFound], [ErrFileNotFound]): those reach the caller only
    as [ErrNotExist]. *)
Theorem view_errors_hide_sentinels g name err :
  snd (value (Open g name)) = Some err \/
  snd (value (ReadDir g name)) = Some err \/
  snd (value (Sub g name)) = Some err ->
  exists op c, err = PathError op name c /\ not_found_sentinel c = false.
Proof.
  intros [Ho | [Hr | Hs]].
  - destruct (Open_failure g name err Ho) as [_ [c ->]].
    destruct (toFSError_hides "open" name c) as [c' [-> Hc]]. eauto.
  - destruct (ReadDir_failure g name err Hr) as [_ [c ->]].
    destruct (toFSError_hides "readdir" name c) as [c' [-> Hc]]. eauto.
  - destruct (Sub_failure g name err Hs) as [_ [c ->]].
    destruct (toFSError_hides "sub" name c) as [c' [-> Hc]]. eauto.
Qed.

Lemma ReadDir_lists_tree g name t :
  fs.ValidPath name = true -> lists_tree g name t ->
  value (ReadDir g name) = fill name t (object.Entries t) [].
Proof.
  intros Hv [[-> ->] | [Hne Ht]].
  - reflexivity.
  - unfold ReadDir. rewrite Hv. cbn [negb].
    destruct (String.eqb_spec name "."); [contradiction|].
    tr. rewrite Ht. reflexivity.
Qed.

(** X3. When every entry of the listed tree has one of Git's modes,
    [ReadDir] returns one handle per entry, in the order the tree stores
    them, under the entries' names, each with no file loaded and no stream
    open. *)
Theorem ReadDir_lists_children g name t :
  fs.ValidPath name = true -> lists_tree g name t ->
  (forall e, In e (object.Entries t) ->
             snd (filemode.ToOSFileMode (object.Mode e)) = None) ->
  value (ReadDir g name) = (map (handle_of t) (object.Entries t), None) /\
  map Name (fst (value (ReadDir g name))) = map object.Name (object.Entries t) /\
  Forall (fun f => gf_file f = None /\ gf_r f = None) (fst (value (ReadDir g name))).
Proof.
  intros Hv Ht Hok. rewrite (ReadDir_lists_tree g name t Hv Ht).
  rewrite (fill_ok name t _ [] Hok). cbn [app fst]. split; [reflexivity|]. split.
  - rewrite map_map. reflexivity.
  - apply Forall_forall. intros f Hin. apply in_map_iff in Hin.
    destruct Hin as [e [<- _]]. split; reflexivity.
Qed.

Lemma fill_stops name t good bad rest : forall entries,
  (forall e, In e good -> snd (filemode.ToOSFileMode (object.Mode e)) = None) ->
  snd (filemode.ToOSFileMode (object.Mode bad)) <> None ->
  fill name t (good ++ bad :: rest) entries
  = ([], Some (PathError "readdir" name (ErrMalformedMode (object.Mode bad)))).
Proof.
  induction good as [|e good IH]; intros entries Hgood Hbad; cbn [app fill].
  - destruct (newGitFile_cases t bad) as [[Hm _] | [err [Hm ->]]]; [contradiction|].
    destruct (ToOSFileMode_error (object.Mode bad)) as [Hn | Hs]; [contradiction|].
    rewrite Hs in Hm. injection Hm as <-. reflexivity.
  - destruct (newGitFile_cases t e) as [[_ ->] | [err [Hm _]]].
    + apply IH; [intros; apply Hgood; right; assumption | exact Hbad].
    + rewrite (Hgood e (or_introl eq_refl)) in Hm. discriminate.
Qed.

(** X4. When the listed tree holds an entry whose mode is none of Git's,
    [ReadDir] fails with the malformed-mode error of the first such entry,
    under "readdir" and the path, and returns none of the handles it had
    made for the entries before it. *)
Theorem ReadDir_rejects_malformed_mode g name t good bad rest :
  fs.ValidPath name = true -> lists_tree g name t ->
  object.Entries t = (good ++ bad :: rest)%list ->
  (forall e, In e good -> snd (filemode.ToOSFileMode (object.Mode e)) = None) ->
  snd (filemode.ToOSFileMode (object.Mode bad)) <> None ->
  value (ReadDir g name)
  = ([], Some (PathError "readdir" name (ErrMalformedMode (object.Mode bad)))).
Proof.
  intros Hv Ht He Hgood Hbad. rewrite (ReadDir_lists_tree g name t Hv Ht), He.
  apply fill_stops; assumption.
Qed.

(** X5. [ReadDir] on a valid path whose entry is found, but whose tree the
    store fails to give, whatever the store's error, returns the empty
    list and no error: the failure is not reported. *)
Theorem ReadDir_hides_unreadable_tree g name e berr :
  fs.ValidPath name = true -> name <> "." ->
  value (object.FindEntry (tree g) name) = Ok e ->
  object.objects (object.s (tree g)) (object.Hash e) = Err berr ->
  value (ReadDir g name) = ([], None).
Proof.
  intros Hv Hne Hf Ho. unfold ReadDir. rewrite Hv. cbn [negb].
  destruct (String.eqb_spec name "."); [contradiction|].
  unfold object.Tree_. tr. rewrite Hf. tr.
  unfold object.GetTree, object.EncodedObject. tr. rewrite Ho.
  destruct berr; tr; rewrite Hf; reflexivity.
Qed.

End Rejections.

Lemma invalid_path_is_rejected_witness :
  Open sample.view "./../abc.txt"
  = ((None, Some (PathError "open" "./../abc.txt" ErrInvalid)), []) /\
  ReadDir sample.view "dir1/"
  = (([], Some (PathError "readdir" "dir1/" ErrInvalid)), []).
Proof.
  split.
  - apply (invalid_path_is_rejected sample.view "./../abc.txt" "..");
      [cbn; auto | auto | discriminate].
  - apply (invalid_path_is_rejected sample.view "dir1/" "");
      [cbn; auto | auto | discriminate].
Defined.

Lemma view_errors_hide_sentinels_witness :
  exists op c, PathError "sub" "dir1/nothing" ErrNotExist = PathError op "dir1/nothing" c /\
               not_found_sentinel c = false.
Proof.
  apply (view_errors_hide_sentinels sample.view "dir1/nothing").
  right. right. reflexivity.
Defined.

Lemma ReadDir_lists_children_witness :
  map Name (fst (value (ReadDir sample.view "dir1/dir12"))) = ["dir12.txt"; "dir121"].
Proof.
  refine (proj1 (proj2 (ReadDir_lists_children sample.view "dir1/dir12"
                          (sample.tree_at sample.mem 13) eq_refl _ _))).
  - right. split; [discriminate | reflexivity].
  - intros e [<- | [<- | []]]; reflexivity.
Defined.

Lemma ReadDir_rejects_malformed_mode_witness :
  value (ReadDir damaged.view "sub")
  = ([], Some (PathError "readdir" "sub" (ErrMalformedMode 4242%N))).
Proof.
  refine (ReadDir_rejects_malformed_mode damaged.view "sub"
            {| object.Entries := _; object.TreeHash := 11; object.s := damaged.store |}
            [{| object.Name := "ok.txt"; object.Mode := filemode.Regular; object.Hash := 1 |}]
            {| object.Name := "odd"; object.Mode := 4242%N; object.Hash := 1 |}
            [{| object.Name := "z.txt"; object.Mode := filemode.Regular; object.Hash := 1 |}]
            eq_refl _ eq_refl _ _).
  - right. split; [discriminate | reflexivity].
  - intros e [<- | []]. reflexivity.
  - discriminate.
Defined.

Lemma ReadDir_hides_unreadable_tree_witness :
  value (ReadDir damaged.view "gone") = ([], None).
Proof.
  refine (ReadDir_hides_unreadable_tree damaged.view "gone"
            {| object.Name := "gone"; object.Mode := filemode.Dir; object.Hash := 30 |}
            (ErrBackend "unexpected EOF") eq_refl _ eq_refl eq_refl).
  discriminate.
Defined.

(* ================================================================= *)
(** * Further properties of scoping *)

Section MoreScoping.
Context {R : Type} `{ReadCloser R}.
Implicit Types (g : gitFS R) (t : object.Tree R).

Lemma Tree_join t d p t1 :
  value (object.Tree_ t d) = Ok t1 ->
  value (object.Tree_ t (d ++ "/" ++ p)) = value (object.Tree_ t1 p).
Proof.
  intros Ht. destruct (Tree_descend t d t1 Ht) as [_ Hs].
  unfold object.Tree_. tr. rewrite (FindEntry_join t d p t1 Ht).
  destruct (value (object.FindEntry t1 p)); [|reflexivity].
  tr. rewrite Hs. reflexivity.
Qed.

(** X6. Scoping composes on valid paths: for valid paths [d] and [p], both
    other than ".", in a view scoped at [d], [Sub p] gives the very view
    that [Sub] of the path [d/p] gives in the original view, or both fail
    with the same cause.  (On paths with an empty, "." or ".." element,
    which [Sub] does not refuse, go-git's path cache decides and nothing
    is stated.) *)
Theorem Sub_composes g d g1 p :
  fs.ValidPath d = true -> d <> "." -> fs.ValidPath p = true -> p <> "." ->
  value (Sub g d) = (Some g1, None) ->
  fs.ValidPath (d ++ "/" ++ p) = true /\
  same_outcome "sub" p (d ++ "/" ++ p)
    (value (Sub g1 p)) (value (Sub g (d ++ "/" ++ p))).
Proof.
  intros Hd Hdn Hp Hpn Hsub. split; [exact (ValidPath_join d p Hd Hdn Hp Hpn)|].
  pose proof (Sub_success g d g1 Hsub) as Ht.
  unfold Sub, same_outcome. tr. rewrite (Tree_join (tree g) d p (tree g1) Ht).
  destruct (value (object.Tree_ (tree g1) p)) as [t | err]; cbn.
  - auto.
  - split; [reflexivity | eauto].
Qed.

Lemma fill_name n1 n2 t todo : forall entries,
  same_outcome "readdir" n1 n2 (fill n1 t todo entries) (fill n2 t todo entries).
Proof.
  induction todo as [|e todo IH]; intros entries; cbn [fill].
  - split; cbn; auto.
  - destruct (newGitFile_cases t e) as [[_ ->] | [err [_ ->]]].
    + apply IH.
    + split; cbn; eauto.
Qed.

(** X7. Listing through a scoped view: for a valid directory path [d]
    other than "." and a valid path [p], [ReadDir p] in the view scoped at
    [d] returns the same handles as [ReadDir] of the joined path in the
    original view, or both fail with the same cause. *)
Theorem ReadDir_scoped g d g1 p :
  fs.ValidPath d = true -> d <> "." -> fs.ValidPath p = true ->
  value (Sub g d) = (Some g1, None) ->
  same_outcome "readdir" p (Join d p)
    (value (ReadDir g1 p)) (value (ReadDir g (Join d p))).
Proof.
  intros Hd Hdn Hp Hsub. pose proof (Sub_success g d g1 Hsub) as Ht.
  destruct (String.eqb_spec p ".") as [-> | Hpn].
  - change (Join d ".") with d.
    rewrite (ReadDir_lists_tree g d (tree g1) Hd (or_intror (conj Hdn Ht))).
    apply fill_name.
  - assert (HJ : Join d p = d ++ "/" ++ p).
    { unfold Join. destruct (String.eqb_spec p "."); [contradiction|].
      destruct (String.eqb_spec d "."); [contradiction | reflexivity]. }
    rewrite HJ. unfold ReadDir.
    rewrite Hp, (ValidPath_join d p Hd Hdn Hp Hpn), join_not_dot. cbn [negb].
    destruct (String.eqb_spec p "."); [contradiction|].
    tr. rewrite (Tree_join (tree g) d p (tree g1) Ht).
    destruct (value (object.Tree_ (tree g1) p)) as [t | err].
    + apply fill_name.
    + tr. rewrite (FindEntry_join (tree g) d p (tree g1) Ht).
      destruct (value (object.FindEntry (tree g1) p)); split; cbn; eauto.
Qed.

(** X8. The view [Sub] returns reads from the same store as its parent,
    and its root is the tree object that the entry found for the path
    refers to: same hash, and the entries the store holds under it. *)
Theorem Sub_root_is_entry_tree g d g1 :
  value (Sub g d) = (Some g1, None) ->
  object.s (tree g1) = object.s (tree g) /\
  exists e, value (object.FindEntry (tree g) d) = Ok e /\
            object.TreeHash (tree g1) = object.Hash e /\
            object.objects (object.s (tree g)) (object.Hash e)
            = Ok (object.TreeObj (object.Entries (tree g1))).
Proof.
  intros Hsub. pose proof (Sub_success g d g1 Hsub) as Ht.
  destruct (Tree_descend _ _ _ Ht) as [_ Hs]. split; [exact Hs|].
  revert Ht. unfold object.Tree_. tr.
  destruct (value (object.FindEntry (tree g) d)) as [e|]; [|discriminate].
  tr. unfold object.GetTree, object.EncodedObject. tr.
  destruct (object.objects _ _) as [[es | size rd] | err] eqn:Ho; cbn.
  - intros [= <-]. exists e. cbn. auto.
  - discriminate.
  - destruct err; discriminate.
Qed.

Lemma entry_name t n e : object.entry t n = Ok e -> object.Name e = n.
Proof.
  unfold object.entry. destruct (find _ _) as [e'|] eqn:Hf; [|discriminate].
  intros [= <-]. apply find_some in Hf. apply String.eqb_eq. exact (proj2 Hf).
Qed.

Lemma walk_name rest : forall t first e,
  value (object.walk t first rest) = Ok e ->
  object.Name e = last (first :: rest) "".
Proof.
  induction rest as [|next rest IH]; intros t first e; cbn [object.walk].
  - apply entry_name.
  - tr. destruct (value (object.dir t first)) as [t1|]; [|discriminate].
    intros Hw. rewrite (IH t1 next e Hw). reflexivity.
Qed.

(** X13. The handle [Open] returns is named by the last element of the
    path it was given ("." for the root). *)
Theorem Open_names_last_element g name f :
  value (Open g name) = (Some f, None) ->
  Name f = last (fs.elems name) "".
Proof.
  unfold Open. destruct (negb (fs.ValidPath name)); [discriminate|].
  tr. destruct (String.eqb_spec name ".") as [-> | Hne].
  - cbn. intros [= <-]. reflexivity.
  - destruct (value (object.FindEntry (tree g) name)) as [e|] eqn:Hf; [|discriminate].
    destruct (newGitFile_cases (tree g) e) as [[_ ->] | [err [_ ->]]]; cbn;
      [|discriminate].
    intros [= <-]. unfold Name. cbn [gf_entry handle_of].
    revert Hf. unfold object.FindEntry, fs.elems.
    destruct (fs.Split name) as [first rest]. apply walk_name.
Qed.

Lemma entry_unique t e :
  In e (object.Entries t) -> NoDup (map object.Name (object.Entries t)) ->
  object.entry t (object.Name e) = Ok e.
Proof.
  intros Hin Hnd. unfold object.entry.
  destruct (find _ _) as [e'|] eqn:Hf.
  - apply find_some in Hf. destruct Hf as [Hin' Heq].
    apply in_rev in Hin'. apply String.eqb_eq in Heq.
    f_equal. clear - Hin Hin' Heq Hnd.
    induction (object.Entries t) as [|a l IH]; [contradiction|].
    cbn in Hnd. inversion Hnd as [|? ? Hna Hnd']; subst.
    destruct Hin as [-> | Hin], Hin' as [-> | Hin']; auto.
    + exfalso. apply Hna. rewrite <- Heq. apply in_map. exact Hin'.
    + exfalso. apply Hna. rewrite Heq. apply in_map. exact Hin.
  - apply (proj1 (in_rev _ _)) in Hin.
    pose proof (find_none _ _ Hf e Hin) as Hfalse. cbn beta in Hfalse.
    rewrite String.eqb_refl in Hfalse. discriminate.
Qed.

(** X14. What [ReadDir] lists can be opened: for a tree [ReadDir] lists
    for [d], whose names are distinct, and an entry of it with one of Git's
    modes whose name is a single valid path element, [Open] of the joined
    path returns the handle of that very entry. *)
Theorem listed_entry_opens g d t e :
  fs.ValidPath d = true -> lists_tree g d t ->
  In e (object.Entries t) -> NoDup (map object.Name (object.Entries t)) ->
  fs.ValidPath (object.Name e) = true -> object.Name e <> "." ->
  fs.Split (object.Name e) = (object.Name e, []) ->
  snd (filemode.ToOSFileMode (object.Mode e)) = None ->
  value (Open g (Join d (object.Name e))) = (Some (handle_of (tree g) e), None).
Proof.
  intros Hd Ht Hin Hnd Hn Hnn Hsplit Hmode.
  assert (Hfind : value (object.FindEntry t (object.Name e)) = Ok e).
  { unfold object.FindEntry. rewrite Hsplit. cbn [object.walk]. tr.
    apply entry_unique; assumption. }
  assert (Hopen : forall name,
             fs.ValidPath name = true -> name <> "." ->
             value (object.FindEntry (tree g) name) = Ok e ->
             value (Open g name) = (Some (handle_of (tree g) e), None)).
  { intros name Hv Hne Hf. unfold Open. rewrite Hv. cbn [negb].
    destruct (String.eqb_spec name "."); [contradiction|].
    tr. rewrite Hf.
    destruct (newGitFile_cases (tree g) e) as [[_ ->] | [err [Hm _]]];
      [reflexivity | congruence]. }
  unfold Join. destruct (String.eqb_spec (object.Name e) "."); [contradiction|].
  destruct Ht as [[-> ->] | [Hdn Htree]].
  - cbn [String.eqb Ascii.eqb Bool.eqb]. apply Hopen; assumption.
  - destruct (String.eqb_spec d "."); [contradiction|].
    apply Hopen.
    + apply ValidPath_join; assumption.
    + intros E. pose proof (join_not_dot d (object.Name e)) as Hj.
      rewrite E in Hj. discriminate.
    + rewrite (FindEntry_join (tree g) d (object.Name e) t Htree). exact Hfind.
Qed.

End MoreScoping.

Lemma Sub_composes_witness :
  same_outcome "sub" "dir12" "dir1/dir12"
    (value (Sub (New (sample.tree_at sample.mem 11)) "dir12"))
    (value (Sub sample.view "dir1/dir12")).
Proof.
  refine (proj2 (Sub_composes sample.view "dir1" (New (sample.tree_at sample.mem 11)) "dir12"
                   eq_refl _ eq_refl _ eq_refl)); discriminate.
Defined.

Lemma ReadDir_scoped_witness :
  same_outcome "readdir" "dir12" "dir1/dir12"
    (value (ReadDir (New (sample.tree_at sample.mem 11)) "dir12"))
    (value (ReadDir sample.view "dir1/dir12")).
Proof.
  refine (ReadDir_scoped sample.view "dir1" (New (sample.tree_at sample.mem 11)) "dir12"
            eq_refl _ eq_refl eq_refl).
  discriminate.
Defined.

Lemma Sub_root_is_entry_tree_witness :
  object.s (sample.tree_at sample.mem 11) = object.s (tree sample.view).
Proof.
  exact (proj1 (Sub_root_is_entry_tree sample.view "dir1"
                  (New (sample.tree_at sample.mem 11)) eq_refl)).
Defined.

Lemma Open_names_last_element_witness :
  Name (handle_of (tree sample.view) (sample.file "dir11.txt" 2)) = "dir11.txt".
Proof.
  exact (Open_names_last_element sample.view "dir1/dir11/dir11.txt" _ eq_refl).
Defined.

Lemma listed_entry_opens_witness :
  value (Open sample.view "dir1/dir12/dir12.txt")
  = (Some (handle_of (tree sample.view) (sample.file "dir12.txt" 3)), None).
Proof.
  refine (listed_entry_opens sample.view "dir1/dir12" (sample.tree_at sample.mem 13)
            (sample.file "dir12.txt" 3) eq_refl _ _ _ eq_refl _ eq_refl eq_refl).
  - right. split; [discriminate | reflexivity].
  - left. reflexivity.
  - repeat constructor; cbn; intuition discriminate.
  - discriminate.
Defined.

(* ================================================================= *)
(** * What the views ask of the store *)

Section Accesses.
Context {R : Type} `{ReadCloser R}.
Implicit Types (g : gitFS R) (t : object.Tree R).

Lemma dir_fetches_trees t n :
  forallb is_tree_fetch (accesses (object.dir t n)) = true.
Proof.
  unfold object.dir. destruct (object.entry t n); reflexivity.
Qed.

Lemma walk_fetches_trees rest : forall t first,
  forallb is_tree_fetch (accesses (object.walk t first rest)) = true.
Proof.
  induction rest as [|next rest IH]; intros t first; cbn [object.walk].
  - reflexivity.
  - rewrite accesses_bind, forallb_app, dir_fetches_trees. cbn [andb].
    destruct (value (object.dir t first)); [apply IH | reflexivity].
Qed.

Lemma FindEntry_fetches_trees t name :
  forallb is_tree_fetch (accesses (object.FindEntry t name)) = true.
Proof.
  unfold object.FindEntry. destruct (fs.Split name). apply walk_fetches_trees.
Qed.

Lemma Tree_fetches_trees t name :
  forallb is_tree_fetch (accesses (object.Tree_ t name)) = true.
Proof.
  unfold object.Tree_. rewrite accesses_bind, forallb_app, FindEntry_fetches_trees.
  destruct (value (object.FindEntry t name)); reflexivity.
Qed.

(** X12. [Open], [ReadDir] and [Sub] ask the store for tree objects only:
    none of them fetches a blob, opens a content stream or reads from
    one, whatever the path and whatever the outcome. *)
Theorem views_fetch_only_trees g name :
  forallb is_tree_fetch (accesses (Open g name)) = true /\
  forallb is_tree_fetch (accesses (ReadDir g name)) = true /\
  forallb is_tree_fetch (accesses (Sub g name)) = true.
Proof.
  split; [|split].
  - unfold Open. destruct (negb (fs.ValidPath name)); [reflexivity|].
    rewrite accesses_bind, forallb_app.
    destruct (name =? ".").
    + cbn [accesses ret snd forallb andb value fst].
      destruct (newGitFile (tree g) _) as [file [err|]]; reflexivity.
    + rewrite FindEntry_fetches_trees. cbn [andb].
      destruct (value (object.FindEntry (tree g) name)) as [e|]; [|reflexivity].
      destruct (newGitFile (tree g) e) as [file [err|]]; reflexivity.
  - unfold ReadDir. destruct (negb (fs.ValidPath name)); [reflexivity|].
    destruct (name =? "."); [reflexivity|].
    rewrite accesses_bind, forallb_app, Tree_fetches_trees. cbn [andb].
    destruct (value (object.Tree_ (tree g) name)); [reflexivity|].
    rewrite accesses_bind, forallb_app, FindEntry_fetches_trees. cbn [andb].
    destruct (value (object.FindEntry (tree g) name)); reflexivity.
  - unfold Sub. rewrite accesses_bind, forallb_app, Tree_fetches_trees. cbn [andb].
    destruct (value (object.Tree_ (tree g) name)); reflexivity.
Qed.

End Accesses.

(* ================================================================= *)
(** * Further properties of file handles *)

Lemma opens_app (a b : list event) : opens (a ++ b) = opens a + opens b.
Proof. unfold opens. rewrite filter_app, length_app. reflexivity. Qed.

Section Streams.
Context {R : Type} `{ReadCloser R}.
Implicit Types (f : gitFile R) (t : object.Tree R).

Lemma load_keeps_stream f :
  gf_r (fst (value (load f))) = gf_r f /\ opens (accesses (load f)) = 0.
Proof.
  unfold load. destruct (gf_file f); [split; reflexivity|].
  destruct (fs.IsDir (gf_mode f)); [split; reflexivity|].
  tr. destruct (value (object.TreeEntryFile _ _)); split; reflexivity.
Qed.

Lemma step_opened f r o :
  gf_r f = Some r ->
  (exists r', gf_r (fst (value (step f o))) = Some r') /\
  opens (accesses (step f o)) = 0.
Proof.
  intros Hr. destruct (load_keeps_stream f) as [Hk Ho].
  destruct o; unfold step; tr.
  - unfold Stat. tr. rewrite !opens_app, Ho.
    destruct (value (load f)) as [f1 [err|]]; cbn [fst] in Hk; cbn;
      rewrite Hk, Hr; eauto.
  - unfold Read. destruct (fs.IsDir (gf_mode f)); [cbn; eauto|].
    tr. rewrite !opens_app, Ho.
    destruct (value (load f)) as [f1 [err|]]; cbn [fst] in Hk; [cbn; rewrite Hk; eauto|].
    rewrite Hk, Hr. tr. cbn [gf_r]. rewrite Hk, Hr. tr.
    destruct (rc_Read r n) as [r' o]. cbn. eauto.
  - unfold Close. rewrite Hr. tr. destruct (rc_Close r) as [r' o]. cbn. eauto.
Qed.

(** X9. Once a handle holds a content stream, no later [Stat], [Read] or
    [Close] opens another one, and the handle keeps a stream: a [Read]
    after a [Close] reads from the closed stream, it does not reopen the
    content. *)
Theorem stream_opened_once f r (ops : list op) :
  gf_r f = Some r ->
  opens (accesses (run f ops)) = 0 /\
  exists r', gf_r (fst (value (run f ops))) = Some r'.
Proof.
  revert f r. induction ops as [|o ops IH]; intros f r Hr; cbn [run].
  - cbn. eauto.
  - destruct (step_opened f r o Hr) as [[r1 Hr1] Ho1].
    destruct (IH _ r1 Hr1) as [Ho2 Hr2].
    tr. rewrite !opens_app, Ho1, Ho2. cbn. auto.
Qed.

(** The first [Read] on a fresh handle whose blob the store holds. *)
Lemma Read_fresh t (e : object.TreeEntry) size rd (n : nat) :
  fs.IsDir (fst (filemode.ToOSFileMode (object.Mode e))) = false ->
  object.objects (object.s t) (object.Hash e) = Ok (object.BlobObj size rd) ->
  Read (handle_of t e) n
  = match rd with
    | Ok r =>
        ((set_r (set_file (handle_of t e) (Some (file_of e size rd)))
            (Some (fst (rc_Read r n))), snd (rc_Read r n)),
         [EvObject BlobObject (object.Hash e); EvReader (object.Hash e); EvStreamRead])
    | Err err =>
        ((set_file (handle_of t e) (Some (file_of e size rd)), ([], Some err)),
         [EvObject BlobObject (object.Hash e); EvReader (object.Hash e)])
    end.
Proof.
  intros Hd Ho. unfold Read, load. cbn [gf_file handle_of gf_mode]. rewrite Hd.
  unfold object.TreeEntryFile, object.GetBlob, object.EncodedObject, object.Reader.
  unfold bind, ret, emit. cbn [fst snd gf_tree gf_entry handle_of]. rewrite Ho.
  cbn. destruct rd as [r | err]; cbn; [|reflexivity].
  destruct (rc_Read r n) as [r' o]. reflexivity.
Qed.

(** X10. The first [Read] on a handle just made for an entry that is not a
    directory and whose blob the store holds fetches the blob, opens its
    stream and reads from it, once each and in that order, and keeps both
    in the handle.  If the stream cannot be opened, [Read] returns that
    error and no byte; the handle keeps the file but no stream, and the
    next [Read] tries to open the stream again without fetching the blob
    again. *)
Theorem first_Read_opens_stream t (e : object.TreeEntry) f size rd (n : nat) :
  newGitFile t e = (Some f, None) -> IsDir f = false ->
  object.objects (object.s t) (object.Hash e) = Ok (object.BlobObj size rd) ->
  match rd with
  | Ok r =>
      Read f n
      = ((set_r (set_file f (Some (file_of e size rd))) (Some (fst (rc_Read r n))),
          snd (rc_Read r n)),
         [EvObject BlobObject (object.Hash e); EvReader (object.Hash e); EvStreamRead])
  | Err err =>
      Read f n
      = ((set_file f (Some (file_of e size rd)), ([], Some err)),
         [EvObject BlobObject (object.Hash e); EvReader (object.Hash e)]) /\
      Read (fst (value (Read f n))) n
      = ((set_file f (Some (file_of e size rd)), ([], Some err)),
         [EvReader (object.Hash e)])
  end.
Proof.
  intros Hnew Hd Ho. rewrite (newGitFile_fresh t e f Hnew) in *.
  unfold IsDir in Hd. cbn [gf_mode handle_of] in Hd.
  pose proof (Read_fresh t e size rd n Hd Ho) as Hfirst.
  destruct rd as [r | err].
  - exact Hfirst.
  - split; [exact Hfirst|].
    rewrite Hfirst. cbn [value fst].
    unfold Read, load. cbn [gf_file set_file handle_of gf_mode]. rewrite Hd.
    reflexivity.
Qed.

(** X11. What a handle reports of its kind follows the entry's Git mode:
    it is a directory exactly for the modes Dir and Submodule, and then
    its type is [ModeDir] and its mode [ModeDir|0777]; for a symlink its
    type is [ModeSymlink]; for every other accepted mode its type is 0
    and its mode 0644 or 0755.  An entry with any other mode gets no
    handle but a malformed-mode error. *)
Theorem handle_kind_follows_mode t (e : object.TreeEntry) :
  match newGitFile t e with
  | (Some f, None) =>
      (IsDir f = true <->
       object.Mode e = filemode.Dir \/ object.Mode e = filemode.Submodule) /\
      (IsDir f = true ->
       Type_ f = fs.ModeDir /\ Mode f = N.lor fs.ModePerm fs.ModeDir) /\
      (object.Mode e = filemode.Symlink -> Type_ f = fs.ModeSymlink) /\
      (IsDir f = false -> object.Mode e <> filemode.Symlink ->
       Type_ f = 0%N /\ (Mode f = 420%N \/ Mode f = 493%N))
  | (None, Some err) =>
      err = ErrMalformedMode (object.Mode e) /\
      ~ In (object.Mode e) [filemode.Dir; filemode.Submodule; filemode.Regular;
                            filemode.Deprecated; filemode.Executable; filemode.Symlink]
  | _ => False
  end.
Proof.
  unfold newGitFile, filemode.ToOSFileMode, IsDir, Type_, Mode.
  destruct (N.eqb_spec (object.Mode e) filemode.Dir) as [-> | H1].
  { cbn. repeat split; auto; discriminate. }
  destruct (N.eqb_spec (object.Mode e) filemode.Submodule) as [-> | H2].
  { cbn. repeat split; auto; discriminate. }
  destruct (N.eqb_spec (object.Mode e) filemode.Regular) as [E3 | H3].
  { cbn. rewrite E3. repeat split; auto; try discriminate.
    intros [E | E]; discriminate E. }
  destruct (N.eqb_spec (object.Mode e) filemode.Deprecated) as [E4 | H4].
  { cbn. rewrite E4. repeat split; auto; try discriminate.
    intros [E | E]; discriminate E. }
  destruct (N.eqb_spec (object.Mode e) filemode.Executable) as [E5 | H5].
  { cbn. rewrite E5. repeat split; auto; try discriminate.
    intros [E | E]; discriminate E. }
  destruct (N.eqb_spec (object.Mode e) filemode.Symlink) as [E6 | H6].
  { cbn. rewrite E6. repeat split; auto; try discriminate;
      try (intros [E | E]; discriminate E);
      exfalso; match goal with C : _ <> _ |- _ => apply C; reflexivity end. }
  split; [reflexivity|]. cbn. intuition congruence.
Qed.

End Streams.

Lemma stream_opened_once_witness :
  opens (accesses (run (fst (value (Read sample.readme_disk 4))) [OpClose; OpRead 4; OpStat])) = 0 /\
  snd (value (run (fst (value (Read sample.readme_disk 4))) [OpClose; OpRead 4; OpStat]))
  = [OutClose None; OutRead [] (Some ErrClosed); OutStat (Some 8%Z) None].
Proof.
  split; [|reflexivity].
  refine (proj1 (stream_opened_once (fst (value (Read sample.readme_disk 4)))
                   {| fr_rest := list_byte_of_string "ADME"; fr_closed := false |}
                   [OpClose; OpRead 4; OpStat] _)).
  reflexivity.
Defined.

Lemma first_Read_opens_stream_witness :
  accesses (Read sample.readme 4) = [EvObject BlobObject 1; EvReader 1; EvStreamRead] /\
  accesses (Read (fst (value (Read (handle_of damaged.root
      {| object.Name := "mute"; object.Mode := filemode.Regular; object.Hash := 2 |}) 4))) 4)
  = [EvReader 2].
Proof.
  split.
  - rewrite (first_Read_opens_stream (sample.root sample.mem) (sample.file "README.md" 1)
               sample.readme 8%Z (Ok (list_byte_of_string "# README")) 4
               eq_refl eq_refl eq_refl).
    reflexivity.
  - rewrite (proj2 (first_Read_opens_stream damaged.root
               {| object.Name := "mute"; object.Mode := filemode.Regular; object.Hash := 2 |}
               _ 3%Z (Err (ErrBackend "inflate failed")) 4
               eq_refl eq_refl eq_refl)).
    reflexivity.
Defined.

(* ================================================================= *)
(** * Reading an in-memory blob *)

Lemma firstn_add {A} (n m : nat) (l : list A) :
  firstn (n + m) l = (firstn n l ++ firstn m (skipn n l))%list.
Proof.
  revert l. induction n as [|n IH]; intros l; [reflexivity|].
  destruct l as [|a l]; cbn; [destruct m; reflexivity|].
  rewrite IH. reflexivity.
Qed.

Section InMemory.
Implicit Types (f : gitFile memReader) (t : object.Tree memReader).

(** A [Read] on an open in-memory stream delivers the next bytes and
    moves on; at the end it reports end-of-stream. *)
Lemma Read_opened_mem f file rest n :
  IsDir f = false -> gf_file f = Some file -> gf_r f = Some rest ->
  value (Read f n)
  = (set_r f (Some (skipn n rest)),
     (firstn n rest, match rest with [] => Some EOF | _ => None end)).
Proof.
  unfold IsDir. intros Hd Hf Hr. unfold Read. rewrite Hd.
  rewrite (load_loaded f file Hf). unfold bind, ret, emit, value. cbn [fst snd].
  rewrite Hr. cbn [fst snd]. rewrite Hr. cbn [fst snd rc_Read memReader_ReadCloser].
  destruct rest as [|b rest]; cbn.
  - destruct n; reflexivity.
  - reflexivity.
Qed.

Lemma run_cons_value {R : Type} `{ReadCloser R} (f : gitFile R) o ops :
  value (run f (o :: ops))
  = (fst (value (run (fst (value (step f o))) ops)),
     snd (value (step f o)) :: snd (value (run (fst (value (step f o))) ops))).
Proof. reflexivity. Qed.

Lemma step_Read_value {R : Type} `{ReadCloser R} (f : gitFile R) n :
  value (step f (OpRead n))
  = (fst (value (Read f n)),
     OutRead (fst (snd (value (Read f n)))) (snd (snd (value (Read f n))))).
Proof. reflexivity. Qed.

Lemma reads_opened_mem n k : forall f file rest,
  IsDir f = false -> gf_file f = Some file -> gf_r f = Some rest ->
  bytes_of (snd (value (run f (repeat (OpRead n) k)))) = firstn (k * n) rest /\
  fst (value (run f (repeat (OpRead n) k))) = set_r f (Some (skipn (k * n) rest)).
Proof.
  induction k as [|k IH]; intros f file rest Hd Hf Hr.
  - split; [reflexivity|]. cbn [repeat run value ret fst Nat.mul skipn].
    transitivity (set_r f (gf_r f)); [symmetry; apply set_r_same | f_equal; exact Hr].
  - cbn [repeat]. rewrite run_cons_value, step_Read_value.
    rewrite (Read_opened_mem f file rest n Hd Hf Hr). cbn [fst snd bytes_of].
    destruct (IH (set_r f (Some (skipn n rest))) file (skipn n rest) Hd Hf eq_refl)
      as [Hb Hh].
    rewrite Hb, Hh. cbn [Nat.mul]. split.
    + rewrite firstn_add. reflexivity.
    + rewrite skipn_skipn, (Nat.add_comm (k * n) n). reflexivity.
Qed.

(** X15. Reading an in-memory blob through a handle just made for it: after
    [k] calls of [Read] with a buffer of [n] bytes the caller has received
    the first [k * n] bytes of the content, in order and with none lost or
    repeated; once these are all the content the next [Read] returns no
    byte and end-of-stream. *)
Theorem reads_deliver_content t (e : object.TreeEntry) f size content (n k : nat) :
  newGitFile t e = (Some f, None) -> IsDir f = false ->
  object.objects (object.s t) (object.Hash e) = Ok (object.BlobObj size (Ok content)) ->
  bytes_of (snd (value (run f (repeat (OpRead n) k)))) = firstn (k * n) content /\
  (List.length content <= k * n ->
   snd (value (Read (fst (value (run f (repeat (OpRead n) k)))) n)) = ([], Some EOF)).
Proof.
  intros Hnew Hd Ho. pose proof (newGitFile_fresh t e f Hnew) as Ef. subst f.
  assert (Hm : fs.IsDir (fst (filemode.ToOSFileMode (object.Mode e))) = false) by exact Hd.
  pose proof (Read_fresh t e size (Ok content) n Hm Ho) as Hfirst.
  cbn beta iota in Hfirst. clear Hnew.
  set (f := handle_of t e) in *.
  set (f0 := set_r (set_file f (Some (file_of e size (Ok content)))) (Some content)).
  assert (Hd0 : IsDir f0 = false) by exact Hd.
  assert (Hsame : value (Read f n) = value (Read f0 n)).
  { rewrite Hfirst, (Read_opened_mem f0 _ content n Hd0 eq_refl eq_refl).
    cbn [value fst]. destruct content as [|b content]; cbn.
    - destruct n; reflexivity.
    - reflexivity. }
  assert (Hrun : forall j, j <> 0 ->
             value (run f (repeat (OpRead n) j)) = value (run f0 (repeat (OpRead n) j))).
  { intros [|j] Hj; [contradiction|]. cbn [repeat].
    rewrite !run_cons_value, !step_Read_value, Hsame. reflexivity. }
  destruct k as [|k].
  - split; [reflexivity|]. cbn [repeat run value ret fst Nat.mul].
    intros Hlen. destruct content; [|cbn in Hlen; lia].
    rewrite Hfirst. cbn. destruct n; reflexivity.
  - rewrite (Hrun (S k)) by discriminate.
    destruct (reads_opened_mem n (S k) f0 _ content Hd0 eq_refl eq_refl) as [Hb Hh].
    split; [exact Hb|]. intros Hlen. rewrite Hh.
    rewrite (Read_opened_mem (set_r f0 (Some (skipn (S k * n) content)))
               (file_of e size (Ok content)) (skipn (S k * n) content) n Hd0 eq_refl eq_refl).
    cbn [snd]. rewrite (skipn_all2 content Hlen), firstn_nil. reflexivity.
Qed.

End InMemory.

Lemma reads_deliver_content_witness :
  bytes_of (snd (value (run sample.readme (repeat (OpRead 3) 3))))
  = list_byte_of_string "# README" /\
  snd (value (Read (fst (value (run sample.readme (repeat (OpRead 3) 3)))) 3))
  = ([], Some EOF).
Proof.
  destruct (reads_deliver_content (sample.root sample.mem) (sample.file "README.md" 1)
              sample.readme 8%Z (list_byte_of_string "# README") 3 3
              eq_refl eq_refl eq_refl) as [Hb He].
  split; [exact Hb|]. apply He. cbn. lia.
Defined.

(* ================================================================= *)
(** * Failures of the walk and of the load *)

Section Retries.
Context {R : Type} `{ReadCloser R}.
Implicit Types (g : gitFS R) (f : gitFile R) (t : object.Tree R).

(** X16. When the walk along a valid path other than "." fails with the
    cause [c], [Open] reports [c] itself, replaced by [ErrNotExist] only if
    it is one of the three sentinels, whereas [ReadDir] and [Sub] report
    [ErrNotExist] whatever [c] is. *)
Theorem walk_failure_reports g name c :
  fs.ValidPath name = true -> name <> "." ->
  value (object.FindEntry (tree g) name) = Err c ->
  value (Open g name) = (None, Some (toFSError "open" name c)) /\
  value (ReadDir g name) = ([], Some (PathError "readdir" name ErrNotExist)) /\
  value (Sub g name) = (None, Some (PathError "sub" name ErrNotExist)).
Proof.
  intros Hv Hne Hf.
  assert (Ht : value (object.Tree_ (tree g) name) = Err ErrDirectoryNotFound).
  { unfold object.Tree_. tr. rewrite Hf. reflexivity. }
  split; [|split].
  - unfold Open. rewrite Hv. cbn [negb].
    destruct (String.eqb_spec name "."); [contradiction|].
    tr. rewrite Hf. reflexivity.
  - unfold ReadDir. rewrite Hv. cbn [negb].
    destruct (String.eqb_spec name "."); [contradiction|].
    tr. rewrite Ht. tr. rewrite Hf. reflexivity.
  - unfold Sub. tr. rewrite Ht. reflexivity.
Qed.

Lemma Stat_failed t (e : object.TreeEntry) err :
  fs.IsDir (fst (filemode.ToOSFileMode (object.Mode e))) = false ->
  object.objects (object.s t) (object.Hash e) = Err err ->
  step (handle_of t e) OpStat
  = ((handle_of t e, OutStat None (Some err)), [EvObject BlobObject (object.Hash e)]).
Proof.
  intros Hd Ho. unfold step, Stat, load. cbn [gf_file handle_of gf_mode]. rewrite Hd.
  unfold object.TreeEntryFile, object.GetBlob, object.EncodedObject.
  unfold bind, ret, emit. cbn [fst snd gf_tree gf_entry handle_of]. rewrite Ho.
  reflexivity.
Qed.

(** X17. A failed load is not remembered: on a handle just made for an entry
    that is not a directory and whose blob the store fails to give, each
    of [k] calls of [Stat] asks the store again and returns the store's
    error, and the handle stays as it was made. *)
Theorem failed_load_is_retried t (e : object.TreeEntry) f err (k : nat) :
  newGitFile t e = (Some f, None) -> IsDir f = false ->
  object.objects (object.s t) (object.Hash e) = Err err ->
  run f (repeat OpStat k)
  = ((f, repeat (OutStat None (Some err)) k),
     repeat (EvObject BlobObject (object.Hash e)) k).
Proof.
  intros Hnew Hd Ho. rewrite (newGitFile_fresh t e f Hnew) in *.
  unfold IsDir in Hd. cbn [gf_mode handle_of] in Hd.
  induction k as [|k IH]; [reflexivity|].
  exact (run_cons _ _ _ _ _ _ _ _ _ (Stat_failed t e err Hd Ho) IH).
Qed.

End Retries.

Lemma walk_failure_reports_witness :
  value (Open sample.view "README.md/x")
  = (None, Some (PathError "open" "README.md/x" ErrObjectNotFound)) /\
  value (Sub sample.view "README.md/x")
  = (None, Some (PathError "sub" "README.md/x" ErrNotExist)).
Proof.
  destruct (walk_failure_reports sample.view "README.md/x" ErrObjectNotFound eq_refl)
    as [Ho [_ Hs]]; [discriminate | reflexivity |].
  split; [exact Ho | exact Hs].
Defined.

Lemma failed_load_is_retried_witness :
  run sample.lost (repeat OpStat 3)
  = ((sample.lost, repeat (OutStat None (Some ErrObjectNotFound)) 3),
     repeat (EvObject BlobObject 9) 3).
Proof.
  exact (failed_load_is_retried (sample.lost_tree sample.mem) (sample.file "lost" 9)
           sample.lost ErrObjectNotFound 3 eq_refl eq_refl eq_refl).
Defined.
